(** * Option handling of the PXF foreign-data wrapper

    A shallow embedding of [contrib/pxf_fdw/pxf_option.c]: the option
    tables, the validator [pxf_fdw_validator] with its helpers, and the
    resolver [PxfGetOptions], followed by the properties the specification
    states about them.

    Conventions.
    - A C string is a [string]; a nullable [char *] is an [option string].
    - [int] is a [Z] in the 32-bit range, [long] a [Z] in the 64-bit range
      (LP64); the narrowing cast is written out in [int_of_long].
    - [ereport(ERROR, ...)] ends the call: fallible functions return a
      [result], whose [ERROR] case carries the error code, the formatted
      message and the hint.
    - A [List *] of [DefElem] is a [list DefElem], in order, duplicates kept. *)

From Stdlib Require Import ZArith NArith List String Ascii Bool Lia.
From Stdlib Require Import DecimalString.
From Stdlib Require DecimalPos.
Import ListNotations.

Local Open Scope string_scope.
Local Open Scope Z_scope.

(* ------------------------------------------------------------------------- *)
(** ** C library and port routines used by the file *)

Module LibC.

(** [strcmp(a, b) == 0]. *)
Definition streq (a b : string) : bool := String.eqb a b.

(** The code of a character as [unsigned char]. *)
Definition uchar (c : ascii) : Z := Z.of_N (N_of_ascii c).

(** ASCII case folding, ['A'..'Z'] to ['a'..'z']; every other byte is left
    alone (bytes with the high bit set are not upper case in the C locale). *)
Definition fold_case (ch : Z) : Z :=
  if (65 <=? ch) && (ch <=? 90) then ch + 32 else ch.

(** The next byte of a C string, the terminating NUL at its end. *)
Definition next_byte (s : string) : Z :=
  match s with
  | EmptyString => 0
  | String c _ => uchar c
  end.

Definition advance (s : string) : string :=
  match s with
  | EmptyString => EmptyString
  | String _ r => r
  end.

(** Modelled from the spec: [pg_strcasecmp] of [src/port/pgstrcasecmp.c],
    which is not among the sources; the case-insensitive comparison the
    specification speaks of, byte by byte with ASCII case folding,
    returning the difference of the first two bytes that differ and 0 when
    there is none. *)
Fixpoint pg_strcasecmp (s1 s2 : string) : Z :=
  let ch1 := fold_case (next_byte s1) in
  let ch2 := fold_case (next_byte s2) in
  if negb (ch1 =? ch2) then ch1 - ch2
  else
    match s1 with
    | EmptyString => 0
    | String _ r1 => pg_strcasecmp r1 (advance s2)
    end.

(** [needle] is a prefix of [s] up to ASCII case. *)
Fixpoint case_prefix (needle s : string) : bool :=
  match needle with
  | EmptyString => true
  | String a needle' =>
      match s with
      | EmptyString => false
      | String b s' =>
          (fold_case (uchar a) =? fold_case (uchar b)) && case_prefix needle' s'
      end
  end.

(** [strcasestr(haystack, needle)]: the first suffix of [haystack] that
    starts with [needle] up to case, [None] for the NULL pointer. *)
Fixpoint strcasestr (haystack needle : string) : option string :=
  if case_prefix needle haystack then Some haystack
  else
    match haystack with
    | EmptyString => None
    | String _ rest => strcasestr rest needle
    end.

Definition isspace (c : ascii) : bool :=
  let n := uchar c in (n =? 32) || ((9 <=? n) && (n <=? 13)).

Definition digit_value (c : ascii) : option Z :=
  let n := uchar c in
  if (48 <=? n) && (n <=? 57) then Some (n - 48) else None.

Definition LONG_MAX : Z := 2 ^ 63 - 1.
Definition LONG_MIN : Z := - 2 ^ 63.

Definition clamp_long (v : Z) : Z :=
  if v <? LONG_MIN then LONG_MIN
  else if LONG_MAX <? v then LONG_MAX
  else v.

(** The narrowing conversion [(int) v] of a [long]: the low 32 bits, read as
    a two's complement number. *)
Definition int_of_long (v : Z) : Z := (v + 2 ^ 31) mod 2 ^ 32 - 2 ^ 31.

(** The digit loop of [strtol] in base 10: the value read so far and the
    number of digits consumed. *)
Fixpoint strtol_digits (s : string) (acc : Z) (n : nat) : Z * nat :=
  match s with
  | EmptyString => (acc, n)
  | String c rest =>
      match digit_value c with
      | Some d => strtol_digits rest (10 * acc + d) (S n)
      | None => (acc, n)
      end
  end.

Fixpoint skip_spaces (s : string) (n : nat) : string * nat :=
  match s with
  | EmptyString => (s, n)
  | String c rest => if isspace c then skip_spaces rest (S n) else (s, n)
  end.

(** [strtol(nptr, &endptr, 10)]: leading white space, an optional sign, then
    decimal digits; the value saturates at [LONG_MIN] and [LONG_MAX].  The
    second component is [endptr - nptr]; it is 0, and the value 0, when no
    digit could be read. *)
Definition strtol (nptr : string) : Z * nat :=
  let '(s1, nspace) := skip_spaces nptr 0 in
  let '(negative, s2, nsign) :=
    match s1 with
    | String "-"%char r => (true, r, 1%nat)
    | String "+"%char r => (false, r, 1%nat)
    | _ => (false, s1, 0%nat)
    end in
  let '(v, ndigits) := strtol_digits s2 0 0 in
  match ndigits with
  | O => (0, 0%nat)
  | S _ => (clamp_long (if negative then - v else v),
            (nspace + nsign + ndigits)%nat)
  end.

(** [atoi(s)], which is [(int) strtol(s, NULL, 10)]. *)
Definition atoi (s : string) : Z := int_of_long (fst (strtol s)).

(** The text [%d] prints for an [int]. *)
Definition format_d (v : Z) : string := NilZero.string_of_int (Z.to_int v).

End LibC.
Import LibC.

(* ------------------------------------------------------------------------- *)
(** ** Data model *)

(** An object identifier of the catalog. *)
Definition Oid : Type := N.

(** The catalogs an option can be attached to.  The identifiers are declared
    in the [catalog/pg_*.h] headers; the numbers are the ones PostgreSQL
    assigns, and only their being distinct matters here. *)
Definition InvalidOid : Oid := 0%N.
Definition AttributeRelationId : Oid := 1249%N.
Definition ForeignServerRelationId : Oid := 1417%N.
Definition UserMappingRelationId : Oid := 1418%N.
Definition ForeignDataWrapperRelationId : Oid := 2328%N.
Definition ForeignTableRelationId : Oid := 3118%N.

(** A [DefElem] of an option list: the option's name and its value, which
    [defGetString] returns. *)
Record DefElem : Type := makeDefElem { defname : string; arg : string }.

Definition defGetString (def : DefElem) : string := arg def.

(** The error codes the file raises; [elog(ERROR, ...)] raises
    [ERRCODE_INTERNAL_ERROR].  [ERRCODE_OTHER] stands for the codes of the
    COPY code this file calls into. *)
Inductive sqlstate : Type :=
  | ERRCODE_FDW_INVALID_ATTRIBUTE_VALUE
  | ERRCODE_FDW_INVALID_STRING_FORMAT
  | ERRCODE_FDW_INVALID_OPTION_NAME
  | ERRCODE_FDW_DYNAMIC_PARAMETER_VALUE_NEEDED
  | ERRCODE_SYNTAX_ERROR
  | ERRCODE_INTERNAL_ERROR
  | ERRCODE_OTHER (code : string).

(** What [ereport(ERROR, (errcode(c), errmsg(m), errhint(h)))] reports. *)
Record ErrorData : Type := ereport {
  sqlerrcode : sqlstate;
  message : string;
  hint : option string
}.

Inductive result (A : Type) : Type :=
  | OK (a : A)
  | ERROR (e : ErrorData).
Arguments OK {A} a.
Arguments ERROR {A} e.

Definition bind {A B : Type} (r : result A) (k : A -> result B) : result B :=
  match r with
  | OK a => k a
  | ERROR e => ERROR e
  end.

Notation "'do' x <- r ; k" := (bind r (fun x => k))
  (at level 10, x name, r at level 100, k at level 200).

(** [foreach(cell, list) body]: the body runs on each element in turn, on the
    state the previous ones left; the first error ends the loop. *)
Fixpoint foreach {S : Type} (body : S -> DefElem -> result S)
    (l : list DefElem) (st : S) : result S :=
  match l with
  | [] => OK st
  | def :: rest => do st' <- body st def; foreach body rest st'
  end.

Definition FDW_OPTION_FORMAT_TEXT : string := "text".
Definition FDW_OPTION_FORMAT_CSV : string := "csv".
Definition FDW_OPTION_FORMAT_RC : string := "rc".

Definition FDW_OPTION_REJECT_LIMIT_ROWS : string := "rows".
Definition FDW_OPTION_REJECT_LIMIT_PERCENT : string := "percent".

Definition FDW_OPTION_PROTOCOL : string := "protocol".
Definition FDW_OPTION_RESOURCE : string := "resource".
Definition FDW_OPTION_FORMAT : string := "format".
Definition FDW_OPTION_REJECT_LIMIT_TYPE : string := "reject_limit_type".
Definition FDW_OPTION_REJECT_LIMIT : string := "reject_limit".
Definition FDW_OPTION_WIRE_FORMAT : string := "wire_format".
Definition FDW_OPTION_PXF_PORT : string := "pxf_port".
Definition FDW_OPTION_PXF_HOST : string := "pxf_host".
Definition FDW_OPTION_PXF_PROTOCOL : string := "pxf_protocol".

Record PxfFdwOption : Type := mkOption {
  optname : string;
  optcontext : Oid           (* Oid of catalog in which option may appear *)
}.

(** The tables, without their sentinel: the loops over them stop at it. *)
Definition valid_options : list PxfFdwOption :=
  [ mkOption FDW_OPTION_PROTOCOL ForeignDataWrapperRelationId;
    mkOption FDW_OPTION_RESOURCE ForeignTableRelationId;
    mkOption FDW_OPTION_FORMAT ForeignTableRelationId;
    mkOption FDW_OPTION_WIRE_FORMAT ForeignTableRelationId;
    mkOption FDW_OPTION_REJECT_LIMIT ForeignTableRelationId;
    mkOption FDW_OPTION_REJECT_LIMIT_TYPE ForeignTableRelationId ].

Definition valid_copy_options : list PxfFdwOption :=
  [ mkOption "format" ForeignTableRelationId;
    mkOption "header" ForeignTableRelationId;
    mkOption "delimiter" ForeignTableRelationId;
    mkOption "quote" ForeignTableRelationId;
    mkOption "escape" ForeignTableRelationId;
    mkOption "null" ForeignTableRelationId;
    mkOption "encoding" ForeignTableRelationId;
    mkOption "newline" ForeignTableRelationId;
    mkOption "fill_missing_fields" ForeignTableRelationId;
    mkOption "force_not_null" AttributeRelationId;
    mkOption "force_null" AttributeRelationId ].

(** The structure [PxfGetOptions] fills in ([pxf_fdw.h]); [memset] leaves
    every pointer NULL and every number 0. *)
Record PxfOptions : Type := mkPxfOptions {
  pxf_port : Z;
  pxf_host : option string;
  pxf_protocol : option string;
  server : option string;
  exec_location : ascii;
  protocol : option string;
  resource : option string;
  format : option string;
  wire_format : option string;
  profile : option string;
  copy_options : list DefElem;
  options : list DefElem;
  reject_limit : Z;
  is_reject_limit_rows : bool
}.

(** Assignments to one member, [opt->f = v]. *)
Definition set_pxf_port (v : Z) (opt : PxfOptions) : PxfOptions :=
  mkPxfOptions v (pxf_host opt) (pxf_protocol opt) (server opt)
    (exec_location opt) (protocol opt) (resource opt) (format opt)
    (wire_format opt) (profile opt) (copy_options opt)
    (options opt) (reject_limit opt) (is_reject_limit_rows opt).
Definition set_pxf_host (v : option string) (opt : PxfOptions) : PxfOptions :=
  mkPxfOptions (pxf_port opt) v (pxf_protocol opt) (server opt)
    (exec_location opt) (protocol opt) (resource opt) (format opt)
    (wire_format opt) (profile opt) (copy_options opt)
    (options opt) (reject_limit opt) (is_reject_limit_rows opt).
Definition set_pxf_protocol (v : option string) (opt : PxfOptions) : PxfOptions :=
  mkPxfOptions (pxf_port opt) (pxf_host opt) v (server opt)
    (exec_location opt) (protocol opt) (resource opt) (format opt)
    (wire_format opt) (profile opt) (copy_options opt)
    (options opt) (reject_limit opt) (is_reject_limit_rows opt).
Definition set_server (v : option string) (opt : PxfOptions) : PxfOptions :=
  mkPxfOptions (pxf_port opt) (pxf_host opt) (pxf_protocol opt) v
    (exec_location opt) (protocol opt) (resource opt) (format opt)
    (wire_format opt) (profile opt) (copy_options opt)
    (options opt) (reject_limit opt) (is_reject_limit_rows opt).
Definition set_exec_location (v : ascii) (opt : PxfOptions) : PxfOptions :=
  mkPxfOptions (pxf_port opt) (pxf_host opt) (pxf_protocol opt) (server opt)
    v (protocol opt) (resource opt) (format opt) (wire_format opt)
    (profile opt) (copy_options opt) (options opt)
    (reject_limit opt) (is_reject_limit_rows opt).
Definition set_protocol (v : option string) (opt : PxfOptions) : PxfOptions :=
  mkPxfOptions (pxf_port opt) (pxf_host opt) (pxf_protocol opt) (server opt)
    (exec_location opt) v (resource opt) (format opt)
    (wire_format opt) (profile opt) (copy_options opt)
    (options opt) (reject_limit opt) (is_reject_limit_rows opt).
Definition set_resource (v : option string) (opt : PxfOptions) : PxfOptions :=
  mkPxfOptions (pxf_port opt) (pxf_host opt) (pxf_protocol opt) (server opt)
    (exec_location opt) (protocol opt) v (format opt)
    (wire_format opt) (profile opt) (copy_options opt)
    (options opt) (reject_limit opt) (is_reject_limit_rows opt).
Definition set_format (v : option string) (opt : PxfOptions) : PxfOptions :=
  mkPxfOptions (pxf_port opt) (pxf_host opt) (pxf_protocol opt) (server opt)
    (exec_location opt) (protocol opt) (resource opt) v
    (wire_format opt) (profile opt) (copy_options opt)
    (options opt) (reject_limit opt) (is_reject_limit_rows opt).
Definition set_wire_format (v : option string) (opt : PxfOptions) : PxfOptions :=
  mkPxfOptions (pxf_port opt) (pxf_host opt) (pxf_protocol opt) (server opt)
    (exec_location opt) (protocol opt) (resource opt) (format opt)
    v (profile opt) (copy_options opt) (options opt)
    (reject_limit opt) (is_reject_limit_rows opt).
Definition set_profile (v : option string) (opt : PxfOptions) : PxfOptions :=
  mkPxfOptions (pxf_port opt) (pxf_host opt) (pxf_protocol opt) (server opt)
    (exec_location opt) (protocol opt) (resource opt) (format opt)
    (wire_format opt) v (copy_options opt) (options opt)
    (reject_limit opt) (is_reject_limit_rows opt).
Definition set_copy_options (v : list DefElem) (opt : PxfOptions) : PxfOptions :=
  mkPxfOptions (pxf_port opt) (pxf_host opt) (pxf_protocol opt) (server opt)
    (exec_location opt) (protocol opt) (resource opt) (format opt)
    (wire_format opt) (profile opt) v (options opt)
    (reject_limit opt) (is_reject_limit_rows opt).
Definition set_options (v : list DefElem) (opt : PxfOptions) : PxfOptions :=
  mkPxfOptions (pxf_port opt) (pxf_host opt) (pxf_protocol opt) (server opt)
    (exec_location opt) (protocol opt) (resource opt) (format opt)
    (wire_format opt) (profile opt) (copy_options opt) v
    (reject_limit opt) (is_reject_limit_rows opt).
Definition set_reject_limit (v : Z) (opt : PxfOptions) : PxfOptions :=
  mkPxfOptions (pxf_port opt) (pxf_host opt) (pxf_protocol opt) (server opt)
    (exec_location opt) (protocol opt) (resource opt) (format opt)
    (wire_format opt) (profile opt) (copy_options opt)
    (options opt) v (is_reject_limit_rows opt).
Definition set_is_reject_limit_rows (v : bool) (opt : PxfOptions) : PxfOptions :=
  mkPxfOptions (pxf_port opt) (pxf_host opt) (pxf_protocol opt) (server opt)
    (exec_location opt) (protocol opt) (resource opt) (format opt)
    (wire_format opt) (profile opt) (copy_options opt)
    (options opt) (reject_limit opt) v.

(** C truth values: a non-zero [int], a non-NULL pointer. *)
Definition nonzero (v : Z) : bool := negb (v =? 0).
Definition non_null {A : Type} (p : option A) : bool :=
  match p with
  | Some _ => true
  | None => false
  end.

(** [p == NULL || strcmp(p, "") == 0]. *)
Definition null_or_empty (p : option string) : bool :=
  match p with
  | None => true
  | Some s => streq s EmptyString
  end.

(** What [%s] prints for a [char *]. *)
Definition format_s (p : option string) : string :=
  match p with
  | Some s => s
  | None => "(null)"
  end.

(** [s] between double quotes. *)
Definition quoted (s : string) : string :=
  String "034"%char (s ++ String "034"%char EmptyString).

(* ------------------------------------------------------------------------- *)
(** ** An environment for the examples *)

(** The functions below are stated over the constants of [pxf_fdw.h] and over
    the routines of the server they call.  [Env] is one choice of these, on
    which the examples at the end of the file run: the wire format names and
    defaults of the extension, the names of the two catalogs that
    [valid_options] mentions, a [defGetBoolean] that reads true, false, on
    and off, and COPY code that accepts every list. *)
Module Env.

Definition TextFormatName : string := "TEXT".
Definition GpdbWritableFormatName : string := "GPDBWritable".
Definition PXF_FDW_DEFAULT_HOST : string := "localhost".
Definition PXF_FDW_DEFAULT_PORT : Z := 5888.
Definition PXF_FDW_DEFAULT_PROTOCOL : string := "http".

Definition RelationGetRelationName (id : Oid) : string :=
  if (id =? ForeignDataWrapperRelationId)%N then "pg_foreign_data_wrapper"
  else if (id =? ForeignTableRelationId)%N then "pg_foreign_table"
  else "pg_class".

Definition defGetBoolean (def : DefElem) : result bool :=
  let sval := defGetString def in
  if (pg_strcasecmp sval "true" =? 0) || (pg_strcasecmp sval "on" =? 0)
  then OK true
  else if (pg_strcasecmp sval "false" =? 0) || (pg_strcasecmp sval "off" =? 0)
  then OK false
  else ERROR (ereport ERRCODE_SYNTAX_ERROR
                (defname def ++ " requires a Boolean value") None).

Definition ProcessCopyOptions (options : list DefElem) : result unit := OK tt.

End Env.

(* ------------------------------------------------------------------------- *)
(** ** The functions of [pxf_option.c] *)

Section PxfOption.

(** The two wire format names and the connection defaults, of [pxf_fdw.h]. *)
Variable TextFormatName : string.
Variable GpdbWritableFormatName : string.
Variable PXF_FDW_DEFAULT_HOST : string.
Variable PXF_FDW_DEFAULT_PORT : Z.
Variable PXF_FDW_DEFAULT_PROTOCOL : string.

(** [RelationGetRelationName(RelationIdGetRelation(id))], of the relation
    cache. *)
Variable RelationGetRelationName : Oid -> string.

(** [defGetBoolean] of [commands/define.c] and [ProcessCopyOptions] of
    [commands/copy.c] (called with the fixed arguments [NULL, true, _, 0,
    true]): each either returns or reports an error of its own. *)
Variable defGetBoolean : DefElem -> result bool.
Variable ProcessCopyOptions : list DefElem -> result unit.

(** Check if the provided option is one of the valid options.
    [context] is the Oid of the catalog holding the object the option is for. *)
Definition IsValidCopyOption (option : string) (context : Oid) : bool :=
  existsb (fun entry =>
             (context =? optcontext entry)%N && streq (optname entry) option)
          valid_copy_options.

(** Check if the option is a COPY option. *)
Definition IsCopyOption (option : string) : bool :=
  existsb (fun entry => streq (optname entry) option) valid_copy_options.

(** Converts the format name into the name of the wire format. *)
Definition GetWireFormatName (format : option string) : string :=
  match format with
  | Some format =>
      if non_null (strcasestr format FDW_OPTION_FORMAT_TEXT)
         || nonzero (pg_strcasecmp format FDW_OPTION_FORMAT_CSV)
         || nonzero (pg_strcasecmp format FDW_OPTION_FORMAT_RC)
      then TextFormatName
      else GpdbWritableFormatName
  | None => GpdbWritableFormatName
  end.

(** Goes through the standard list of options to make sure the option is
    defined at the correct catalog level. *)
Fixpoint ValidateOption_from (entries : list PxfFdwOption)
    (option : string) (catalog : Oid) : result unit :=
  match entries with
  | [] => OK tt
  | entry :: rest =>
      if streq (optname entry) option && negb (catalog =? optcontext entry)%N
      then ERROR (ereport ERRCODE_FDW_INVALID_OPTION_NAME
                    ("the " ++ option ++ " option can only be defined at the "
                     ++ RelationGetRelationName (optcontext entry) ++ " level")
                    None)
      else ValidateOption_from rest option catalog
  end.

Definition ValidateOption (option : string) (catalog : Oid) : result unit :=
  ValidateOption_from valid_options option catalog.

(** The hint of [ValidateCopyOptions]: the names of the table that are legal
    in [catalog], appended to [buf] in the order of the table, each after the
    first one behind a comma. *)
Fixpoint append_valid_names (entries : list PxfFdwOption) (catalog : Oid)
    (buf : string) : string :=
  match entries with
  | [] => buf
  | opt :: rest =>
      append_valid_names rest catalog
        (if (catalog =? optcontext opt)%N
         then buf ++ (if (0 <? String.length buf)%nat then ", " else EmptyString)
                  ++ optname opt
         else buf)
  end.

Definition invalid_copy_option (name : string) (catalog : Oid) : ErrorData :=
  let buf := append_valid_names valid_copy_options catalog EmptyString in
  ereport ERRCODE_FDW_INVALID_OPTION_NAME
    ("invalid option " ++ quoted name)
    (Some (if (0 <? String.length buf)%nat
           then "Valid options in this context are: " ++ buf
           else "There are no valid options in this context.")).

(** The local variables of [ValidateCopyOptions]. *)
Record copy_vars : Type := mkCopyVars {
  c_force_not_null : option DefElem;
  c_force_null : option DefElem;
  c_copy_options : list DefElem
}.

Definition redundant_option (name : string) : ErrorData :=
  ereport ERRCODE_SYNTAX_ERROR "conflicting or redundant options"
    (Some ("option " ++ quoted name
             ++ " supplied more than once for a column")).

Definition ValidateCopyOptions_body (catalog : Oid) (st : copy_vars)
    (def : DefElem) : result copy_vars :=
  if negb (IsValidCopyOption (defname def) catalog)
  then ERROR (invalid_copy_option (defname def) catalog)
  else if streq (defname def) "force_not_null" then
    if non_null (c_force_not_null st)
    then ERROR (redundant_option "force_not_null")
    else
      do _ <- defGetBoolean def;
      OK (mkCopyVars (Some def) (c_force_null st) (c_copy_options st))
  else if streq (defname def) "force_null" then
    if non_null (c_force_null st)
    then ERROR (redundant_option "force_null")
    else
      do _ <- defGetBoolean def;
      OK (mkCopyVars (c_force_not_null st) (Some def) (c_copy_options st))
  else
    OK (mkCopyVars (c_force_not_null st) (c_force_null st)
          (c_copy_options st ++ [def])).

Definition ValidateCopyOptions (options_list : list DefElem) (catalog : Oid)
    : result unit :=
  do st <- foreach (ValidateCopyOptions_body catalog) options_list
             (mkCopyVars None None []);
  ProcessCopyOptions (c_copy_options st).

(** The local variables of [pxf_fdw_validator] that its loop assigns. *)
Record validator_vars : Type := mkValidatorVars {
  v_protocol : option string;
  v_resource : option string;
  v_reject_limit_type : string;
  v_copy_options : list DefElem;
  v_reject_limit : Z
}.

Definition validator_init : validator_vars :=
  mkValidatorVars None None FDW_OPTION_REJECT_LIMIT_ROWS [] (-1).

(** The body of the loop of [pxf_fdw_validator]. *)
Definition validator_body (catalog : Oid) (st : validator_vars)
    (def : DefElem) : result validator_vars :=
  (* check whether option is valid at it's catalog level, if not, error out *)
  do _ <- ValidateOption (defname def) catalog;
  if streq (defname def) FDW_OPTION_PROTOCOL then
    OK (mkValidatorVars (Some (defGetString def)) (v_resource st)
          (v_reject_limit_type st) (v_copy_options st) (v_reject_limit st))
  else if streq (defname def) FDW_OPTION_RESOURCE then
    OK (mkValidatorVars (v_protocol st) (Some (defGetString def))
          (v_reject_limit_type st) (v_copy_options st) (v_reject_limit st))
  else if streq (defname def) FDW_OPTION_WIRE_FORMAT then
    let value := defGetString def in
    if negb (streq TextFormatName value)
       && negb (streq GpdbWritableFormatName value)
    then ERROR (ereport ERRCODE_FDW_INVALID_ATTRIBUTE_VALUE
                  ("invalid wire_format value, only '" ++ TextFormatName
                   ++ "' and '" ++ GpdbWritableFormatName ++ "' are supported")
                  None)
    else OK st
  else if streq (defname def) FDW_OPTION_FORMAT then
    let value := defGetString def in
    if (pg_strcasecmp value FDW_OPTION_FORMAT_TEXT =? 0)
       || (pg_strcasecmp value FDW_OPTION_FORMAT_CSV =? 0)
    then OK (mkValidatorVars (v_protocol st) (v_resource st)
               (v_reject_limit_type st) (v_copy_options st ++ [def])
               (v_reject_limit st))
    else OK st
  else if streq (defname def) FDW_OPTION_REJECT_LIMIT then
    let pStr := defGetString def in
    let '(value, endptr) := strtol pStr in
    let reject_limit := int_of_long value in
    if (endptr =? 0)%nat || (reject_limit <? 1)
    then ERROR (ereport ERRCODE_FDW_INVALID_STRING_FORMAT
                  ("invalid reject_limit value '" ++ pStr
                   ++ "', should be a positive integer")
                  None)
    else OK (mkValidatorVars (v_protocol st) (v_resource st)
               (v_reject_limit_type st) (v_copy_options st) reject_limit)
  else if streq (defname def) FDW_OPTION_REJECT_LIMIT_TYPE then
    let reject_limit_type := defGetString def in
    if nonzero (pg_strcasecmp reject_limit_type FDW_OPTION_REJECT_LIMIT_ROWS)
       && nonzero (pg_strcasecmp reject_limit_type
                     FDW_OPTION_REJECT_LIMIT_PERCENT)
    then ERROR (ereport ERRCODE_FDW_INVALID_STRING_FORMAT
                  ("invalid reject_limit_type value, only '"
                   ++ FDW_OPTION_REJECT_LIMIT_ROWS ++ "' and '"
                   ++ FDW_OPTION_REJECT_LIMIT_PERCENT ++ "' are supported")
                  None)
    else OK (mkValidatorVars (v_protocol st) (v_resource st)
               reject_limit_type (v_copy_options st) (v_reject_limit st))
  else if IsCopyOption (defname def) then
    OK (mkValidatorVars (v_protocol st) (v_resource st)
          (v_reject_limit_type st) (v_copy_options st ++ [def])
          (v_reject_limit st))
  else OK st.

Definition protocol_needed : ErrorData :=
  ereport ERRCODE_FDW_DYNAMIC_PARAMETER_VALUE_NEEDED
    "the protocol option must be defined for PXF foreign-data wrappers" None.

Definition resource_needed : ErrorData :=
  ereport ERRCODE_FDW_DYNAMIC_PARAMETER_VALUE_NEEDED
    "the resource option must be defined at the foreign table level" None.

Definition invalid_rows_reject_limit (reject_limit : Z) : ErrorData :=
  ereport ERRCODE_FDW_INVALID_STRING_FORMAT
    ("invalid (ROWS) reject_limit value '" ++ format_d reject_limit
     ++ "', valid values are 2 or larger") None.

Definition invalid_percent_reject_limit (reject_limit : Z) : ErrorData :=
  ereport ERRCODE_FDW_INVALID_STRING_FORMAT
    ("invalid (PERCENT) reject_limit value '" ++ format_d reject_limit
     ++ "', valid values are 1 to 100") None.

(** The three checks of [pxf_fdw_validator] that follow its loop. *)
Definition check_protocol (catalog : Oid) (st : validator_vars) : result unit :=
  if (catalog =? ForeignDataWrapperRelationId)%N
     && null_or_empty (v_protocol st)
  then ERROR protocol_needed
  else OK tt.

Definition check_resource (catalog : Oid) (st : validator_vars) : result unit :=
  if (catalog =? ForeignTableRelationId)%N
     && null_or_empty (v_resource st)
  then ERROR resource_needed
  else OK tt.

(* Validate reject limit *)
Definition check_reject_limit (st : validator_vars) : result unit :=
  if negb (v_reject_limit st =? -1) then
    if pg_strcasecmp (v_reject_limit_type st) FDW_OPTION_REJECT_LIMIT_ROWS =? 0
    then
      if v_reject_limit st <? 2
      then ERROR (invalid_rows_reject_limit (v_reject_limit st))
      else OK tt
    else
      if (v_reject_limit st <? 1) || (100 <? v_reject_limit st)
      then ERROR (invalid_percent_reject_limit (v_reject_limit st))
      else OK tt
  else OK tt.

(** Validate the generic options given to a FOREIGN DATA WRAPPER, SERVER,
    USER MAPPING or FOREIGN TABLE; [options_list] is the untransformed option
    list, [catalog] the catalog of the object. *)
Definition pxf_fdw_validator (options_list : list DefElem) (catalog : Oid)
    : result unit :=
  do st <- foreach (validator_body catalog) options_list validator_init;
  do _ <- check_protocol catalog st;
  do _ <- check_resource catalog st;
  do _ <- check_reject_limit st;
  (* Additional validations for Copy options *)
  ValidateCopyOptions (v_copy_options st) catalog.

(** The local variables of [PxfGetOptions] that its loop assigns. *)
Record resolver_vars : Type := mkResolverVars {
  r_opt : PxfOptions;
  r_copy_options : list DefElem;
  r_other_options : list DefElem;
  r_other_option_names : list string
}.

(** [list_member] on a list of String values, which [equal] compares by
    their text. *)
Definition list_member (names : list string) (val : string) : bool :=
  existsb (fun name => streq name val) names.

(** [opt] after [palloc], [memset] and the two initial assignments. *)
Definition resolver_init : resolver_vars :=
  mkResolverVars
    (set_is_reject_limit_rows true
       (set_reject_limit (-1)
          (mkPxfOptions 0 None None None zero None None None None None
             [] [] 0 false)))
    [] [] [].

Definition assign (f : PxfOptions -> PxfOptions) (st : resolver_vars)
    : resolver_vars :=
  mkResolverVars (f (r_opt st)) (r_copy_options st) (r_other_options st)
    (r_other_option_names st).

Definition append_copy_option (def : DefElem) (st : resolver_vars)
    : resolver_vars :=
  mkResolverVars (r_opt st) (r_copy_options st ++ [def]) (r_other_options st)
    (r_other_option_names st).

Definition invalid_port (value : string) : ErrorData :=
  ereport ERRCODE_INTERNAL_ERROR ("invalid port number: " ++ value) None.

(** The body of the loop of [PxfGetOptions]. *)
Definition resolver_body (st : resolver_vars) (def : DefElem)
    : result resolver_vars :=
  if streq (defname def) FDW_OPTION_PXF_HOST then
    OK (assign (set_pxf_host (Some (defGetString def))) st)
  else if streq (defname def) FDW_OPTION_PXF_PORT then
    let st := assign (set_pxf_port (atoi (defGetString def))) st in
    if (pxf_port (r_opt st) <=? 0) || (65535 <=? pxf_port (r_opt st))
    then ERROR (invalid_port (defGetString def))
    else OK st
  else if streq (defname def) FDW_OPTION_PXF_PROTOCOL then
    OK (assign (set_pxf_protocol (Some (defGetString def))) st)
  else if streq (defname def) FDW_OPTION_PROTOCOL then
    OK (assign (set_protocol (Some (defGetString def))) st)
  else if streq (defname def) FDW_OPTION_RESOURCE then
    OK (assign (set_resource (Some (defGetString def))) st)
  else if streq (defname def) FDW_OPTION_REJECT_LIMIT then
    OK (assign (set_reject_limit (atoi (defGetString def))) st)
  else if streq (defname def) FDW_OPTION_REJECT_LIMIT_TYPE then
    OK (assign (set_is_reject_limit_rows
                  (pg_strcasecmp FDW_OPTION_REJECT_LIMIT_ROWS
                     (defGetString def) =? 0)) st)
  else if streq (defname def) FDW_OPTION_FORMAT then
    let st := assign (set_format (Some (defGetString def))) st in
    if (pg_strcasecmp (defGetString def) FDW_OPTION_FORMAT_TEXT =? 0)
       || (pg_strcasecmp (defGetString def) FDW_OPTION_FORMAT_CSV =? 0)
    then OK (append_copy_option def st)
    else OK st
  else if streq (defname def) FDW_OPTION_WIRE_FORMAT then
    OK (assign (set_wire_format (Some (defGetString def))) st)
  else if IsCopyOption (defname def) then
    OK (append_copy_option def st)
  else
    let val := defname def in
    if negb (list_member (r_other_option_names st) val)
    then OK (mkResolverVars (r_opt st) (r_copy_options st)
               (r_other_options st ++ [def])
               (r_other_option_names st ++ [val]))
    else OK st.

(** What follows the loop of [PxfGetOptions]: the two lists, the server name
    and execution location, the profile and the defaults. *)
Definition resolver_finish (servername : string) (location : ascii)
    (st : resolver_vars) : PxfOptions :=
  let opt := r_opt st in
  let opt := set_copy_options (r_copy_options st) opt in
  let opt := set_options (r_other_options st) opt in
  let opt := set_server (Some servername) opt in
  let opt := set_exec_location location opt in
  (* The profile corresponds to protocol[:format] *)
  let opt := set_profile (protocol opt) opt in
  let opt :=
    if non_null (format opt)
    then set_profile
           (Some (format_s (protocol opt) ++ ":" ++ format_s (format opt))) opt
    else opt in
  (* Set defaults when not provided *)
  let opt :=
    if negb (non_null (pxf_host opt))
    then set_pxf_host (Some PXF_FDW_DEFAULT_HOST) opt else opt in
  let opt :=
    if pxf_port opt =? 0
    then set_pxf_port PXF_FDW_DEFAULT_PORT opt else opt in
  let opt :=
    if negb (non_null (pxf_protocol opt))
    then set_pxf_protocol (Some PXF_FDW_DEFAULT_PROTOCOL) opt else opt in
  if negb (non_null (wire_format opt))
  then set_wire_format (Some (GetWireFormatName (format opt))) opt
  else opt.

(** Fetch the options for a pxf_fdw foreign table.  The catalog lookups
    ([GetForeignTable], [GetUserMapping], [GetForeignServer],
    [GetForeignDataWrapper]) are the caller's here: the function starts from
    the option lists of the four objects, the name of the server and the
    execution location of the wrapper. *)
Definition PxfGetOptions (table_options user_options server_options
    wrapper_options : list DefElem) (servername : string) (location : ascii)
    : result PxfOptions :=
  let options : list DefElem := [] in
  let options := (options ++ table_options)%list in
  let options := (options ++ user_options)%list in
  let options := (options ++ server_options)%list in
  let options := (options ++ wrapper_options)%list in
  (* Loop through the options, and get the server/port *)
  do st <- foreach resolver_body options resolver_init;
  OK (resolver_finish servername location st).

(* ------------------------------------------------------------------------- *)
(** ** Vocabulary of the statements *)

(** The options the loop of [PxfGetOptions] sends to the COPY options: a
    format of value text or csv, and the options of [valid_copy_options]. *)
Definition is_row_format_option (def : DefElem) : bool :=
  if streq (defname def) FDW_OPTION_FORMAT
  then (pg_strcasecmp (defGetString def) FDW_OPTION_FORMAT_TEXT =? 0)
       || (pg_strcasecmp (defGetString def) FDW_OPTION_FORMAT_CSV =? 0)
  else IsCopyOption (defname def).

(** The options [PxfGetOptions] stores in a member of their own. *)
Inductive named_field : Type :=
  | F_protocol | F_resource | F_format | F_wire_format
  | F_reject_limit | F_reject_limit_type
  | F_pxf_host | F_pxf_port | F_pxf_protocol.

Definition field_name (f : named_field) : string :=
  match f with
  | F_protocol => FDW_OPTION_PROTOCOL
  | F_resource => FDW_OPTION_RESOURCE
  | F_format => FDW_OPTION_FORMAT
  | F_wire_format => FDW_OPTION_WIRE_FORMAT
  | F_reject_limit => FDW_OPTION_REJECT_LIMIT
  | F_reject_limit_type => FDW_OPTION_REJECT_LIMIT_TYPE
  | F_pxf_host => FDW_OPTION_PXF_HOST
  | F_pxf_port => FDW_OPTION_PXF_PORT
  | F_pxf_protocol => FDW_OPTION_PXF_PROTOCOL
  end.

Definition named_fields : list named_field :=
  [ F_protocol; F_resource; F_format; F_wire_format; F_reject_limit;
    F_reject_limit_type; F_pxf_host; F_pxf_port; F_pxf_protocol ].

Definition is_named_field (name : string) : bool :=
  existsb (fun f => streq name (field_name f)) named_fields.

(** The entries of an option list that bear a given name. *)
Definition named (name : string) (l : list DefElem) : list DefElem :=
  filter (fun def => streq (defname def) name) l.

(** The value of a member of [PxfOptions]. *)
Inductive field_value : Type :=
  | Text (p : option string)
  | Number (n : Z)
  | Flag (b : bool).

(** The member of the configuration a named field is stored in. *)
Definition member (f : named_field) (opt : PxfOptions) : field_value :=
  match f with
  | F_protocol => Text (protocol opt)
  | F_resource => Text (resource opt)
  | F_format => Text (format opt)
  | F_wire_format => Text (wire_format opt)
  | F_reject_limit => Number (reject_limit opt)
  | F_reject_limit_type => Flag (is_reject_limit_rows opt)
  | F_pxf_host => Text (pxf_host opt)
  | F_pxf_port => Number (pxf_port opt)
  | F_pxf_protocol => Text (pxf_protocol opt)
  end.

(** What the loop of [PxfGetOptions] assigns to that member from an option
    of the field's name. *)
Definition assigned (f : named_field) (def : DefElem) : field_value :=
  match f with
  | F_reject_limit | F_pxf_port => Number (atoi (defGetString def))
  | F_reject_limit_type =>
      Flag (pg_strcasecmp FDW_OPTION_REJECT_LIMIT_ROWS (defGetString def) =? 0)
  | _ => Text (Some (defGetString def))
  end.

(** The two options of the reject limit, and an option list without them. *)
Definition is_reject_limit_option (def : DefElem) : bool :=
  streq (defname def) FDW_OPTION_REJECT_LIMIT
  || streq (defname def) FDW_OPTION_REJECT_LIMIT_TYPE.

Definition without_reject_limit (l : list DefElem) : list DefElem :=
  filter (fun def => negb (is_reject_limit_option def)) l.

(** Two states of the validator's loop that agree on all but the reject
    limit and its type. *)
Definition same_but_reject_limit (a b : validator_vars) : Prop :=
  v_protocol a = v_protocol b
  /\ v_resource a = v_resource b
  /\ v_copy_options a = v_copy_options b.

(** The names of [valid_copy_options] that are legal in a catalog, in the
    order of the table. *)
Definition legal_copy_names (catalog : Oid) : list string :=
  map optname
    (filter (fun opt => (catalog =? optcontext opt)%N) valid_copy_options).

(** The hint that goes with a list of legal names. *)
Definition hint_for (names : list string) : string :=
  match names with
  | [] => "There are no valid options in this context."
  | _ => "Valid options in this context are: " ++ String.concat ", " names
  end.

(** Names in ascending order, by insertion. *)
Fixpoint insert_name (x : string) (l : list string) : list string :=
  match l with
  | [] => [x]
  | y :: l' => if String.leb x y then x :: l else y :: insert_name x l'
  end.

Definition sort_names (l : list string) : list string :=
  fold_right insert_name [] l.

(** The state of the validator's loop after an assignment to the reject
    limit, and to its type. *)
Definition with_reject_limit (v : Z) (st : validator_vars) : validator_vars :=
  mkValidatorVars (v_protocol st) (v_resource st) (v_reject_limit_type st)
    (v_copy_options st) v.

Definition with_reject_limit_type (t : string) (st : validator_vars)
    : validator_vars :=
  mkValidatorVars (v_protocol st) (v_resource st) t (v_copy_options st)
    (v_reject_limit st).

(** The text begins with a decimal digit. *)
Definition starts_with_digit (s : string) : bool :=
  match s with
  | EmptyString => false
  | String c _ => non_null (digit_value c)
  end.

Definition INT_MAX : Z := 2 ^ 31 - 1.

(** The last option of a given name in an option list. *)
Definition last_named (name : string) (l : list DefElem) : option DefElem :=
  match rev (named name l) with
  | [] => None
  | def :: _ => Some def
  end.

(** The two options of [ValidateCopyOptions] that are checked and dropped. *)
Definition is_force_option (def : DefElem) : bool :=
  streq (defname def) "force_not_null" || streq (defname def) "force_null".

(** The option lists of a foreign table, its user mapping, server and wrapper
    have each passed [pxf_fdw_validator], with the catalog of their object. *)
Definition validated (table user server wrapper : list DefElem) : Prop :=
  pxf_fdw_validator table ForeignTableRelationId = OK tt
  /\ pxf_fdw_validator user UserMappingRelationId = OK tt
  /\ pxf_fdw_validator server ForeignServerRelationId = OK tt
  /\ pxf_fdw_validator wrapper ForeignDataWrapperRelationId = OK tt.

(** The text holds no NUL byte, as every C string. *)
Fixpoint no_nul (s : string) : bool :=
  match s with
  | EmptyString => true
  | String c rest => negb (uchar c =? 0) && no_nul rest
  end.

Definition INT_MIN : Z := - 2 ^ 31.

(** The integer that [strtol] reads at the head of a text, when it reads a
    digit at all. *)
Definition leading_integer (s : string) : option Z :=
  let '(value, endptr) := strtol s in
  if (endptr =? 0)%nat then None else Some value.

(** The text is empty, or begins with a character that is neither white
    space, nor a sign, nor a digit. *)
Definition no_number (s : string) : bool :=
  match s with
  | EmptyString => true
  | String c _ =>
      negb (isspace c) && negb (uchar c =? 43) && negb (uchar c =? 45)
      && negb (non_null (digit_value c))
  end.

(** An option list without its reject limit. *)
Definition without_limit (l : list DefElem) : list DefElem :=
  filter (fun def => negb (streq (defname def) FDW_OPTION_REJECT_LIMIT)) l.

(** The type against which the validator checks the reject limit: that of
    the last [reject_limit_type] option, and rows when there is none. *)
Definition reject_limit_type_of (l : list DefElem) : string :=
  match last_named FDW_OPTION_REJECT_LIMIT_TYPE l with
  | Some def => defGetString def
  | None => FDW_OPTION_REJECT_LIMIT_ROWS
  end.

(** The error of the validator's loop on a reject limit. *)
Definition invalid_reject_limit (pStr : string) : ErrorData :=
  ereport ERRCODE_FDW_INVALID_STRING_FORMAT
    ("invalid reject_limit value '" ++ pStr
     ++ "', should be a positive integer") None.

(* ------------------------------------------------------------------------- *)
(** ** Facts about the library routines *)

Lemma streq_true (a b : string) : streq a b = true <-> a = b.
Proof. apply String.eqb_eq. Qed.

Lemma streq_false (a b : string) : streq a b = false <-> a <> b.
Proof. apply String.eqb_neq. Qed.

Lemma streq_refl (a : string) : streq a a = true.
Proof. apply String.eqb_refl. Qed.

(** A comparison that yields 0 has met equal first bytes, up to case. *)
Lemma pg_strcasecmp_first (s1 s2 : string) :
  pg_strcasecmp s1 s2 = 0 ->
  fold_case (next_byte s1) = fold_case (next_byte s2).
Proof.
  destruct s1 as [|c1 r1]; cbn [pg_strcasecmp];
    destruct (Z.eqb_spec (fold_case (next_byte EmptyString))
                         (fold_case (next_byte s2))) as [E|E];
    try destruct (Z.eqb_spec (fold_case (next_byte (String c1 r1)))
                             (fold_case (next_byte s2))) as [E'|E'];
    cbn [negb]; intros H; try assumption; try lia.
Qed.

(** No string equals both csv and rc up to case: the two differ in their
    first letter. *)
Lemma csv_or_rc_differs (format : string) :
  nonzero (pg_strcasecmp format FDW_OPTION_FORMAT_CSV)
  || nonzero (pg_strcasecmp format FDW_OPTION_FORMAT_RC) = true.
Proof.
  unfold nonzero.
  destruct (Z.eqb_spec (pg_strcasecmp format FDW_OPTION_FORMAT_CSV) 0) as [E1|E1];
    [|reflexivity].
  destruct (Z.eqb_spec (pg_strcasecmp format FDW_OPTION_FORMAT_RC) 0) as [E2|E2];
    [|reflexivity].
  apply pg_strcasecmp_first in E1. apply pg_strcasecmp_first in E2.
  rewrite E1 in E2. vm_compute in E2. discriminate.
Qed.

(** The wire format derived from a format that is present is always the text
    one, whatever the format names. *)
Lemma GetWireFormatName_non_null (format : string) :
  GetWireFormatName (Some format) = TextFormatName.
Proof.
  unfold GetWireFormatName.
  rewrite <- orb_assoc, csv_or_rc_differs, orb_true_r. reflexivity.
Qed.

Lemma foreach_app {S : Type} (body : S -> DefElem -> result S)
    (l1 l2 : list DefElem) (st : S) :
  foreach body (l1 ++ l2) st
  = do st' <- foreach body l1 st; foreach body l2 st'.
Proof.
  revert st. induction l1 as [|d l1 IH]; intros st; cbn [foreach app bind].
  - reflexivity.
  - destruct (body st d) as [st1|e]; cbn [bind]; [apply IH | reflexivity].
Qed.

(* ------------------------------------------------------------------------- *)
(** ** The resolver *)

Ltac by_name H := apply streq_true in H; rewrite H in *; clear H.

(** Each round of the loop appends the option to [copy_options] when it is a
    row-format option, and leaves the list alone otherwise. *)
Lemma resolver_body_copy_options (st st' : resolver_vars) (def : DefElem) :
  resolver_body st def = OK st' ->
  r_copy_options st'
  = (r_copy_options st ++ filter is_row_format_option [def])%list.
Proof.
  unfold resolver_body, is_row_format_option. cbn [filter].
  destruct (streq (defname def) FDW_OPTION_PXF_HOST) eqn:E1;
    [by_name E1; intros [= <-]; cbn; now rewrite app_nil_r|].
  destruct (streq (defname def) FDW_OPTION_PXF_PORT) eqn:E2.
  { by_name E2. destruct (_ || _); intros [= <-]; cbn; now rewrite app_nil_r. }
  destruct (streq (defname def) FDW_OPTION_PXF_PROTOCOL) eqn:E3;
    [by_name E3; intros [= <-]; cbn; now rewrite app_nil_r|].
  destruct (streq (defname def) FDW_OPTION_PROTOCOL) eqn:E4;
    [by_name E4; intros [= <-]; cbn; now rewrite app_nil_r|].
  destruct (streq (defname def) FDW_OPTION_RESOURCE) eqn:E5;
    [by_name E5; intros [= <-]; cbn; now rewrite app_nil_r|].
  destruct (streq (defname def) FDW_OPTION_REJECT_LIMIT) eqn:E6;
    [by_name E6; intros [= <-]; cbn; now rewrite app_nil_r|].
  destruct (streq (defname def) FDW_OPTION_REJECT_LIMIT_TYPE) eqn:E7;
    [by_name E7; intros [= <-]; cbn; now rewrite app_nil_r|].
  destruct (streq (defname def) FDW_OPTION_FORMAT) eqn:E8.
  { destruct (_ || _); intros [= <-]; cbn; [reflexivity | now rewrite app_nil_r]. }
  destruct (streq (defname def) FDW_OPTION_WIRE_FORMAT) eqn:E9;
    [by_name E9; intros [= <-]; cbn; now rewrite app_nil_r|].
  destruct (IsCopyOption (defname def)) eqn:E10;
    [intros [= <-]; reflexivity|].
  destruct (negb _); intros [= <-]; cbn; now rewrite app_nil_r.
Qed.

Lemma resolver_loop_copy_options (l : list DefElem) (st st' : resolver_vars) :
  foreach resolver_body l st = OK st' ->
  r_copy_options st'
  = (r_copy_options st ++ filter is_row_format_option l)%list.
Proof.
  revert st. induction l as [|d l IH]; intros st; cbn [foreach bind filter].
  - intros [= <-]. now rewrite app_nil_r.
  - destruct (resolver_body st d) as [st1|e] eqn:E; cbn [bind]; [|discriminate].
    intros H. apply IH in H. rewrite H.
    rewrite (resolver_body_copy_options _ _ _ E). cbn [filter].
    destruct (is_row_format_option d); cbn; rewrite <- ?app_assoc;
      rewrite ?app_nil_r; reflexivity.
Qed.

Ltac finish_cases :=
  unfold resolver_finish; cbv zeta;
  repeat match goal with
         | |- context [if ?c then _ else _] => destruct c
         end;
  reflexivity.

Lemma resolver_finish_copy_options srv loc (st : resolver_vars) :
  copy_options (resolver_finish srv loc st) = r_copy_options st.
Proof. finish_cases. Qed.

Lemma resolver_finish_options srv loc (st : resolver_vars) :
  options (resolver_finish srv loc st) = r_other_options st.
Proof. finish_cases. Qed.

(** [PxfGetOptions] is its loop over the concatenated lists, then the final
    assignments. *)
Lemma PxfGetOptions_OK table user server wrapper srv loc (opt : PxfOptions) :
  PxfGetOptions table user server wrapper srv loc = OK opt ->
  exists st,
    foreach resolver_body (table ++ user ++ server ++ wrapper)%list
      resolver_init = OK st
    /\ opt = resolver_finish srv loc st.
Proof.
  unfold PxfGetOptions. cbv zeta. cbn [app]. rewrite <- !app_assoc.
  destruct (foreach resolver_body _ resolver_init) as [st|e]; cbn [bind];
    [|discriminate].
  intros [= <-]. now exists st.
Qed.

Lemma not_named_field (x : string) :
  is_named_field x = false -> forall f, streq x (field_name f) = false.
Proof.
  unfold is_named_field, named_fields. cbn [existsb]. intros H f.
  repeat (apply orb_false_elim in H as [? H]).
  destruct f; assumption.
Qed.

Lemma named_app (x : string) (l1 l2 : list DefElem) :
  named x (l1 ++ l2) = (named x l1 ++ named x l2)%list.
Proof. apply filter_app. Qed.

Lemma list_member_app (names : list string) (v x : string) :
  list_member (names ++ [v]) x = list_member names x || streq v x.
Proof.
  unfold list_member. rewrite existsb_app. cbn [existsb].
  now rewrite orb_false_r.
Qed.

(** A round of the loop either leaves the pass-through list and the names
    seen alone, or appends to both the option at hand, which then is neither
    a named field nor a COPY option and was not seen before. *)
Lemma resolver_body_other_options (st st' : resolver_vars) (def : DefElem) :
  resolver_body st def = OK st' ->
  (r_other_options st' = r_other_options st
   /\ r_other_option_names st' = r_other_option_names st)
  \/ (list_member (r_other_option_names st) (defname def) = false
      /\ r_other_options st' = (r_other_options st ++ [def])%list
      /\ r_other_option_names st'
         = (r_other_option_names st ++ [defname def])%list).
Proof.
  unfold resolver_body.
  repeat match goal with
         | |- context [if streq ?a ?b then _ else _] => destruct (streq a b)
         end;
    try (intros [= <-]; left; split; reflexivity);
    try (destruct (_ || _); intros [= <-]; left; split; reflexivity).
  destruct (IsCopyOption (defname def));
    [intros [= <-]; left; split; reflexivity|].
  destruct (list_member (r_other_option_names st) (defname def)) eqn:M;
    cbn [negb]; intros [= <-]; [left | right]; repeat split; reflexivity.
Qed.

(** An option that is neither a named field nor a COPY option is kept when
    its name is new, and dropped when the name was seen. *)
Lemma resolver_body_generic (st : resolver_vars) (def : DefElem) :
  is_named_field (defname def) = false ->
  IsCopyOption (defname def) = false ->
  resolver_body st def
  = OK (if list_member (r_other_option_names st) (defname def)
        then st
        else mkResolverVars (r_opt st) (r_copy_options st)
               (r_other_options st ++ [def])
               (r_other_option_names st ++ [defname def])).
Proof.
  intros N C. unfold resolver_body.
  pose proof (not_named_field _ N) as A.
  rewrite (A F_pxf_host : streq _ FDW_OPTION_PXF_HOST = false),
    (A F_pxf_port : streq _ FDW_OPTION_PXF_PORT = false),
    (A F_pxf_protocol : streq _ FDW_OPTION_PXF_PROTOCOL = false),
    (A F_protocol : streq _ FDW_OPTION_PROTOCOL = false),
    (A F_resource : streq _ FDW_OPTION_RESOURCE = false),
    (A F_reject_limit : streq _ FDW_OPTION_REJECT_LIMIT = false),
    (A F_reject_limit_type : streq _ FDW_OPTION_REJECT_LIMIT_TYPE = false),
    (A F_format : streq _ FDW_OPTION_FORMAT = false),
    (A F_wire_format : streq _ FDW_OPTION_WIRE_FORMAT = false), C.
  destruct (list_member _ _); reflexivity.
Qed.

(** While no option named [x] has come by, [x] is not among the names seen
    and the pass-through list has no entry for it. *)
Lemma resolver_loop_before (x : string) (l : list DefElem)
    (st st' : resolver_vars) :
  foreach resolver_body l st = OK st' ->
  (forall e, In e l -> defname e <> x) ->
  list_member (r_other_option_names st) x = false ->
  named x (r_other_options st) = [] ->
  list_member (r_other_option_names st') x = false
  /\ named x (r_other_options st') = [].
Proof.
  revert st. induction l as [|e l IH]; intros st; cbn [foreach bind].
  - intros [= <-]. auto.
  - destruct (resolver_body st e) as [st1|err] eqn:E; cbn [bind]; [|discriminate].
    intros L Hx M Nm.
    assert (Ne : streq (defname e) x = false)
      by (apply streq_false, Hx; now left).
    destruct (resolver_body_other_options _ _ _ E) as [[Eo En]|(_ & Eo & En)];
      apply (IH st1 L); try (intros e' I; apply Hx; now right);
      rewrite ?Eo, ?En; try assumption.
    + now rewrite list_member_app, M, Ne.
    + rewrite named_app, Nm. unfold named. cbn [filter]. now rewrite Ne.
Qed.

(** Once [x] is among the names seen, its entries in the pass-through list
    do not change any more. *)
Lemma resolver_loop_after (x : string) (l : list DefElem)
    (st st' : resolver_vars) :
  foreach resolver_body l st = OK st' ->
  list_member (r_other_option_names st) x = true ->
  list_member (r_other_option_names st') x = true
  /\ named x (r_other_options st') = named x (r_other_options st).
Proof.
  revert st. induction l as [|e l IH]; intros st; cbn [foreach bind].
  - intros [= <-]. auto.
  - destruct (resolver_body st e) as [st1|err] eqn:E; cbn [bind]; [|discriminate].
    intros L M.
    destruct (resolver_body_other_options _ _ _ E) as [[Eo En]|(Mn & Eo & En)].
    + destruct (IH st1 L) as [M' N']; [now rewrite En|].
      now rewrite N', Eo.
    + assert (Ne : streq (defname e) x = false).
      { destruct (streq (defname e) x) eqn:Ex; [|reflexivity].
        apply streq_true in Ex. congruence. }
      destruct (IH st1 L) as [M' N'].
      { now rewrite En, list_member_app, M. }
      rewrite N', Eo, named_app. unfold named at 2. cbn [filter].
      rewrite Ne. now rewrite app_nil_r.
Qed.

(** The first entry of a given name in an option list. *)
Lemma first_named (x : string) (l : list DefElem) (d : DefElem) :
  In d l -> defname d = x ->
  exists l1 d1 l2,
    l = (l1 ++ d1 :: l2)%list /\ defname d1 = x
    /\ forall e, In e l1 -> defname e <> x.
Proof.
  induction l as [|a l IH]; intros I Hd; [destruct I|].
  destruct (string_dec (defname a) x) as [Ea|Na].
  - exists [], a, l. repeat split; [assumption | intros e []].
  - destruct I as [->|I]; [contradiction|].
    destruct (IH I Hd) as (l1 & d1 & l2 & -> & H1 & H2).
    exists (a :: l1), d1, l2. repeat split; [assumption|].
    intros e [<-|I']; [assumption | now apply H2].
Qed.

(** C2, as amended.  Whenever [PxfGetOptions] returns, the COPY options of
    its result are the row-format options of the four lists, in the order of
    the concatenation table, user mapping, server, wrapper, every occurrence
    kept: nothing is removed, and so the result has one entry per name
    exactly when no row-format option name is repeated in the lists. *)
Theorem copy_options_all_occurrences table user server wrapper srv loc
    (opt : PxfOptions) :
  PxfGetOptions table user server wrapper srv loc = OK opt ->
  copy_options opt
  = filter is_row_format_option (table ++ user ++ server ++ wrapper)
  /\ (NoDup (map defname (copy_options opt))
      <-> NoDup (map defname
                   (filter is_row_format_option
                      (table ++ user ++ server ++ wrapper)))).
Proof.
  intros H. apply PxfGetOptions_OK in H as (st & L & ->).
  rewrite resolver_finish_copy_options.
  rewrite (resolver_loop_copy_options _ _ _ L). now split.
Qed.

(** C3.  An option [x] that is neither a named field nor a row-format
    option, given at the foreign table with value [v] and at the wrapper
    with another value [w], has exactly one entry in the pass-through options
    of the result, and that entry carries [v]. *)
Theorem generic_option_precedence table user server wrapper srv loc
    (x v w : string) (opt : PxfOptions) :
  is_named_field x = false ->
  IsCopyOption x = false ->
  In (makeDefElem x v) table ->
  (forall d, In d table -> defname d = x -> arg d = v) ->
  In (makeDefElem x w) wrapper ->
  v <> w ->
  PxfGetOptions table user server wrapper srv loc = OK opt ->
  named x (options opt) = [makeDefElem x v].
Proof.
  intros N C It Uniq _ _ H.
  apply PxfGetOptions_OK in H as (st & L & ->).
  rewrite resolver_finish_options.
  destruct (first_named x table _ It eq_refl) as (l1 & d1 & l2 & -> & Hd1 & Hl1).
  assert (d1 = makeDefElem x v) as ->.
  { destruct d1 as [n a]. cbn in Hd1. subst n. f_equal.
    apply (Uniq (makeDefElem x a)); [|reflexivity].
    apply in_or_app. right. now left. }
  rewrite <- app_assoc in L. rewrite foreach_app in L.
  destruct (foreach resolver_body l1 resolver_init) as [s1|e] eqn:L1;
    cbn [bind] in L; [|discriminate].
  destruct (resolver_loop_before x _ _ _ L1 Hl1 eq_refl eq_refl) as [M1 N1].
  cbn [app foreach] in L.
  rewrite (resolver_body_generic s1 (makeDefElem x v) N C) in L.
  cbn [defname] in L. rewrite M1 in L. cbn [bind] in L.
  apply resolver_loop_after with (x := x) in L as [_ ->];
    cbn [r_other_option_names r_other_options].
  - rewrite named_app, N1. unfold named. cbn [filter defname app].
    now rewrite streq_refl.
  - now rewrite list_member_app, streq_refl, orb_true_r.
Qed.

Ltac body_cases :=
  unfold resolver_body;
  repeat match goal with
         | |- context [if streq ?a ?b then _ else _] =>
             let E := fresh "E" in destruct (streq a b) eqn:E
         end;
  repeat match goal with
         | |- context [if ?c then _ else _] =>
             let E := fresh "C" in destruct c eqn:E
         end.

(** An option of the field's name sets the field's member. *)
Lemma resolver_body_assigns (f : named_field) (st st' : resolver_vars)
    (def : DefElem) :
  defname def = field_name f ->
  resolver_body st def = OK st' ->
  member f (r_opt st') = assigned f def
  /\ (f = F_pxf_port -> pxf_port (r_opt st') <> 0).
Proof.
  intros Hn. unfold resolver_body. rewrite Hn.
  destruct f; cbn -[atoi pg_strcasecmp Z.leb];
    repeat match goal with
           | |- context [if ?c then _ else _] =>
               let E := fresh "C" in destruct c eqn:E
           end;
    intros [= <-]; (split; [reflexivity|]); intros F; try discriminate F.
  cbn -[atoi]. apply orb_false_elim in C as [C _].
  apply Z.leb_gt in C. cbn -[atoi] in C. lia.
Qed.

(** An option of another name leaves the field's member alone. *)
Lemma resolver_body_keeps (f : named_field) (st st' : resolver_vars)
    (e : DefElem) :
  defname e <> field_name f ->
  resolver_body st e = OK st' ->
  member f (r_opt st') = member f (r_opt st).
Proof.
  intros Hn. body_cases; intros [= <-];
    try (destruct f; reflexivity);
    destruct f; first [reflexivity | exfalso; apply Hn, streq_true; assumption].
Qed.

Lemma resolver_loop_keeps (f : named_field) (l : list DefElem)
    (st st' : resolver_vars) :
  (forall e, In e l -> defname e <> field_name f) ->
  foreach resolver_body l st = OK st' ->
  member f (r_opt st') = member f (r_opt st).
Proof.
  revert st. induction l as [|e l IH]; intros st Hl; cbn [foreach bind].
  - now intros [= <-].
  - destruct (resolver_body st e) as [st1|err] eqn:E; cbn [bind]; [|discriminate].
    intros L. rewrite (IH st1); [|intros e' I; apply Hl; now right | exact L].
    apply (resolver_body_keeps f _ _ e); [apply Hl; now left | exact E].
Qed.

(** The defaults replace only what the loop left unset. *)
Lemma resolver_finish_keeps (f : named_field) srv loc (st : resolver_vars)
    (d : DefElem) :
  member f (r_opt st) = assigned f d ->
  (f = F_pxf_port -> pxf_port (r_opt st) <> 0) ->
  member f (resolver_finish srv loc st) = assigned f d.
Proof.
  intros M P. destruct st as [o c oo on]. destruct o.
  destruct pxf_port0, format0, pxf_host0, pxf_protocol0, wire_format0;
    destruct f;
    first [ exact M
          | exfalso; cbn in M, P; first [discriminate M | now apply P] ].
Qed.

(** C9.  A named field given more than once is resolved to its last
    occurrence in the concatenation table, user mapping, server, wrapper:
    the member of the result holds what the loop assigns from the last
    option of that name, so that a value at the wrapper replaces one at the
    foreign table. *)
Theorem named_field_last_occurrence table user server wrapper srv loc
    (f : named_field) (pre post : list DefElem) (d : DefElem)
    (opt : PxfOptions) :
  (table ++ user ++ server ++ wrapper)%list = (pre ++ d :: post)%list ->
  defname d = field_name f ->
  (forall e, In e post -> defname e <> field_name f) ->
  PxfGetOptions table user server wrapper srv loc = OK opt ->
  member f opt = assigned f d.
Proof.
  intros Split Hd Hpost H.
  apply PxfGetOptions_OK in H as (st & L & ->).
  rewrite Split, foreach_app in L.
  destruct (foreach resolver_body pre resolver_init) as [s1|e] eqn:L1;
    cbn [bind foreach] in L; [|discriminate].
  destruct (resolver_body s1 d) as [s2|e] eqn:B; cbn [bind] in L; [|discriminate].
  destruct (resolver_body_assigns f _ _ _ Hd B) as [A P].
  pose proof (resolver_loop_keeps f _ _ _ Hpost L) as K.
  apply resolver_finish_keeps.
  - now rewrite K.
  - intros ->. cbn [member] in K. injection K as K. rewrite K. now apply P.
Qed.

(** The only error of a round of the loop is the one on the port. *)
Lemma resolver_body_port (st : resolver_vars) (def : DefElem) :
  defname def = FDW_OPTION_PXF_PORT ->
  resolver_body st def
  = if (atoi (defGetString def) <=? 0) || (65535 <=? atoi (defGetString def))
    then ERROR (invalid_port (defGetString def))
    else OK (assign (set_pxf_port (atoi (defGetString def))) st).
Proof. intros E. unfold resolver_body. rewrite E. reflexivity. Qed.

Lemma resolver_body_error (st : resolver_vars) (def : DefElem) (err : ErrorData) :
  resolver_body st def = ERROR err ->
  defname def = FDW_OPTION_PXF_PORT
  /\ (atoi (defGetString def) <= 0 \/ 65535 <= atoi (defGetString def))
  /\ err = invalid_port (defGetString def).
Proof.
  body_cases; intros [= <-].
  apply streq_true in E0. split; [assumption|]. split; [|reflexivity].
  cbn -[atoi] in C. apply orb_true_iff in C as [C|C];
    apply Z.leb_le in C; auto.
Qed.

(** Past a round that succeeded on a port option, and from then on, the
    port of the configuration is a valid one. *)
Lemma resolver_body_port_range (st st' : resolver_vars) (e : DefElem) :
  resolver_body st e = OK st' ->
  0 < pxf_port (r_opt st) < 65535 \/ defname e = FDW_OPTION_PXF_PORT ->
  0 < pxf_port (r_opt st') < 65535.
Proof.
  destruct (string_dec (defname e) FDW_OPTION_PXF_PORT) as [E|N].
  - rewrite (resolver_body_port st e E).
    destruct (Z.leb_spec (atoi (defGetString e)) 0);
      destruct (Z.leb_spec 65535 (atoi (defGetString e)));
      cbn [orb]; intros [= <-] _; cbn -[atoi]; lia.
  - intros B [R|E]; [|contradiction].
    pose proof (resolver_body_keeps F_pxf_port _ _ _ N B) as K.
    cbn [member] in K. injection K as ->. exact R.
Qed.

Lemma resolver_loop_port_range (l : list DefElem) (st st' : resolver_vars) :
  foreach resolver_body l st = OK st' ->
  0 < pxf_port (r_opt st) < 65535
  \/ (exists d, In d l /\ defname d = FDW_OPTION_PXF_PORT) ->
  0 < pxf_port (r_opt st') < 65535.
Proof.
  revert st. induction l as [|e l IH]; intros st; cbn [foreach bind].
  - intros [= <-] [R|(d & [] & _)]. exact R.
  - destruct (resolver_body st e) as [st1|err] eqn:B; cbn [bind]; [|discriminate].
    intros L H. apply (IH st1 L).
    destruct H as [R|(d & [<-|I] & Hd)].
    + left. apply (resolver_body_port_range _ _ _ B). now left.
    + left. apply (resolver_body_port_range _ _ _ B). now right.
    + right. now exists d.
Qed.

Lemma resolver_loop_fails (l : list DefElem) (st : resolver_vars) (d : DefElem) :
  In d l -> defname d = FDW_OPTION_PXF_PORT ->
  atoi (defGetString d) <= 0 \/ 65535 <= atoi (defGetString d) ->
  exists d', In d' l /\ defname d' = FDW_OPTION_PXF_PORT
             /\ foreach resolver_body l st = ERROR (invalid_port (defGetString d')).
Proof.
  revert st. induction l as [|e l IH]; intros st I Hd Bad; [destruct I|].
  cbn [foreach bind].
  destruct (resolver_body st e) as [st1|err] eqn:B; cbn [bind].
  - destruct I as [->|I].
    + rewrite (resolver_body_port st d Hd) in B.
      destruct (Z.leb_spec (atoi (defGetString d)) 0);
        destruct (Z.leb_spec 65535 (atoi (defGetString d)));
        cbn [orb] in B; try discriminate B; lia.
    + destruct (IH st1 I Hd Bad) as (d' & I' & N' & E').
      exists d'. repeat split; [now right | assumption | assumption].
  - apply resolver_body_error in B as (N & _ & ->).
    exists e. repeat split; [now left | assumption].
Qed.

Lemma resolver_loop_succeeds (l : list DefElem) (st : resolver_vars) :
  (forall d, In d l -> defname d = FDW_OPTION_PXF_PORT ->
             0 < atoi (defGetString d) < 65535) ->
  exists st', foreach resolver_body l st = OK st'.
Proof.
  revert st. induction l as [|e l IH]; intros st Hl; cbn [foreach bind].
  - now exists st.
  - destruct (resolver_body st e) as [st1|err] eqn:B; cbn [bind].
    + apply IH. intros d I. apply Hl. now right.
    + apply resolver_body_error in B as (N & Bad & _).
      specialize (Hl e (or_introl eq_refl) N). lia.
Qed.

Lemma PxfGetOptions_unfold table user server wrapper srv loc :
  PxfGetOptions table user server wrapper srv loc
  = do st <- foreach resolver_body (table ++ user ++ server ++ wrapper)%list
               resolver_init;
    OK (resolver_finish srv loc st).
Proof.
  unfold PxfGetOptions. cbv zeta. cbn [app]. now rewrite <- !app_assoc.
Qed.

Lemma resolver_finish_port srv loc (st : resolver_vars) :
  pxf_port (r_opt st) <> 0 ->
  pxf_port (resolver_finish srv loc st) = pxf_port (r_opt st).
Proof.
  intros P. unfold resolver_finish. cbv zeta.
  destruct st as [o c oo on]. destruct o.
  cbn -[Z.eqb] in P.
  destruct (pxf_port0 =? 0) eqn:Z0; [apply Z.eqb_eq in Z0; contradiction|].
  destruct format0, pxf_host0, pxf_protocol0, wire_format0;
    cbn -[Z.eqb]; rewrite ?Z0; reflexivity.
Qed.

(** X16.  The port check is on the [int] that [atoi] makes of the text of a
    [pxf_port] option.  Resolution fails on the port as soon as one
    [pxf_port] option of the four lists reads, by [atoi], as a number that
    is 0, negative or at least 65535; it completes when every [pxf_port]
    option reads strictly between 0 and 65535, and only then; the port of
    the result, when a [pxf_port] option is given, lies strictly between 0
    and 65535.  The texts 0, -1 and 65535 read outside that range, 1 and
    65534 inside. *)
Theorem pxf_port_boundary table user server wrapper srv loc :
  (forall d, In d (table ++ user ++ server ++ wrapper) ->
     defname d = FDW_OPTION_PXF_PORT ->
     atoi (defGetString d) <= 0 \/ 65535 <= atoi (defGetString d) ->
     exists d', In d' (table ++ user ++ server ++ wrapper)
                /\ defname d' = FDW_OPTION_PXF_PORT
                /\ PxfGetOptions table user server wrapper srv loc
                   = ERROR (invalid_port (defGetString d')))
  /\ ((forall d, In d (table ++ user ++ server ++ wrapper) ->
         defname d = FDW_OPTION_PXF_PORT ->
         0 < atoi (defGetString d) < 65535) ->
      exists opt, PxfGetOptions table user server wrapper srv loc = OK opt)
  /\ (forall opt, PxfGetOptions table user server wrapper srv loc = OK opt ->
      forall d, In d (table ++ user ++ server ++ wrapper) ->
        defname d = FDW_OPTION_PXF_PORT ->
        0 < atoi (defGetString d) < 65535 /\ 0 < pxf_port opt < 65535)
  /\ (atoi "0" = 0 /\ atoi "-1" = -1 /\ atoi "65535" = 65535
      /\ atoi "1" = 1 /\ atoi "65534" = 65534).
Proof.
  rewrite PxfGetOptions_unfold.
  split; [|split; [|split; [|repeat split]]].
  - intros d I Hd Bad.
    destruct (resolver_loop_fails _ resolver_init d I Hd Bad)
      as (d' & I' & N' & E').
    exists d'. rewrite E'. now repeat split.
  - intros Hl. destruct (resolver_loop_succeeds _ resolver_init Hl) as [st E].
    rewrite E. cbn [bind]. eauto.
  - intros opt H d I Hd.
    destruct (foreach resolver_body _ resolver_init) as [st|e] eqn:L;
      cbn [bind] in H; [|discriminate].
    injection H as <-.
    assert (In_range : 0 < atoi (defGetString d) < 65535).
    { destruct (Z_lt_le_dec 0 (atoi (defGetString d))) as [Lo|Lo];
        [destruct (Z_lt_le_dec (atoi (defGetString d)) 65535) as [Hi|Hi];
         [lia|]|].
      - destruct (resolver_loop_fails _ resolver_init d I Hd (or_intror Hi))
          as (d' & _ & _ & E'). congruence.
      - destruct (resolver_loop_fails _ resolver_init d I Hd (or_introl Lo))
          as (d' & _ & _ & E'). congruence. }
    split; [exact In_range|].
    assert (R : 0 < pxf_port (r_opt st) < 65535)
      by (apply (resolver_loop_port_range _ _ _ L); right; now exists d).
    rewrite resolver_finish_port; lia.
Qed.

(** A [pxf_port] option has no rule in [valid_options] and no branch in the
    loop of [pxf_fdw_validator]: whatever its text, the validator passes
    it by. *)
Lemma validator_ignores_pxf_port (value : string) (l : list DefElem)
    (catalog : Oid) :
  pxf_fdw_validator (makeDefElem FDW_OPTION_PXF_PORT value :: l) catalog
  = pxf_fdw_validator l catalog.
Proof. reflexivity. Qed.

(** C7, at an input on which the code departs from it.  The server option
    pxf_port=4294973184 bears the integer 4294973184, which is not below
    65535, and [strtol] reads it whole; yet resolution completes, with the
    port 5888: [atoi] keeps the low 32 bits of what it has read, and the
    range test sees the 5888 that is left of 2^32 + 5888.  In the same way
    the negative -4294967295 is resolved to port 1.  The validator lets
    both texts through, as any text of a [pxf_port] option. *)
Theorem pxf_port_beyond_int srv loc :
  (exists opt,
     PxfGetOptions
       [makeDefElem "resource" "/data/sales"] []
       [makeDefElem "pxf_port" "4294973184"]
       [makeDefElem "protocol" "s3"] srv loc = OK opt
     /\ pxf_port opt = 5888)
  /\ strtol "4294973184" = (4294973184, 10%nat)
  /\ 65535 <= 4294973184
  /\ atoi "4294973184" = 5888
  /\ (exists opt,
        PxfGetOptions
          [makeDefElem "resource" "/data/sales"] []
          [makeDefElem "pxf_port" "-4294967295"]
          [makeDefElem "protocol" "s3"] srv loc = OK opt
        /\ pxf_port opt = 1)
  /\ strtol "-4294967295" = (-4294967295, 11%nat)
  /\ (forall l catalog,
        pxf_fdw_validator (makeDefElem "pxf_port" "4294973184" :: l) catalog
        = pxf_fdw_validator l catalog).
Proof.
  split; [eexists; split; reflexivity|].
  split; [reflexivity|]. split; [lia|]. split; [reflexivity|].
  split; [eexists; split; reflexivity|].
  split; [reflexivity|].
  intros l catalog. apply validator_ignores_pxf_port.
Qed.

(** C1, at an input on which the code departs from it.  A foreign table of
    format parquet, with no wire format given at any level, is resolved to
    the text wire format, not to the writable one: [GetWireFormatName] tests
    that the format differs from csv or differs from rc, which every format
    does ([GetWireFormatName_non_null]). *)
Theorem parquet_resolves_to_text_wire_format srv loc :
  exists opt,
    PxfGetOptions
      [makeDefElem "resource" "/data/sales"; makeDefElem "format" "parquet"]
      [] [] [makeDefElem "protocol" "s3"] srv loc = OK opt
    /\ format opt = Some "parquet"
    /\ wire_format opt = Some TextFormatName
    /\ GetWireFormatName (format opt) = TextFormatName.
Proof. eexists. repeat split. Qed.

(* ------------------------------------------------------------------------- *)
(** ** The validator *)

Lemma ValidateOption_from_no_rule (entries : list PxfFdwOption)
    (option : string) (catalog : Oid) :
  (forall entry, In entry entries -> optname entry <> option) ->
  ValidateOption_from entries option catalog = OK tt.
Proof.
  induction entries as [|entry rest IH]; intros H; cbn [ValidateOption_from].
  - reflexivity.
  - assert (E : streq (optname entry) option = false)
      by (apply streq_false, H; now left).
    rewrite E. cbn [andb]. apply IH. intros e I. apply H. now right.
Qed.

(** C4.  An option of [valid_options] passes [ValidateOption] at the catalog
    of its entry, and at every other catalog raises the error that names the
    option and the relation of that one catalog; an option name that is not
    in [valid_options] passes at every catalog. *)
Theorem ValidateOption_catalog_level :
  (forall entry, In entry valid_options ->
     ValidateOption (optname entry) (optcontext entry) = OK tt
     /\ forall catalog, catalog <> optcontext entry ->
          ValidateOption (optname entry) catalog
          = ERROR (ereport ERRCODE_FDW_INVALID_OPTION_NAME
                     ("the " ++ optname entry
                      ++ " option can only be defined at the "
                      ++ RelationGetRelationName (optcontext entry)
                      ++ " level")
                     None))
  /\ (forall option catalog,
        (forall entry, In entry valid_options -> optname entry <> option) ->
        ValidateOption option catalog = OK tt).
Proof.
  split.
  - intros entry I. unfold valid_options in I. cbn [In] in I.
    repeat (destruct I as [<-|I]); try destruct I;
      (split; [reflexivity|]); intros catalog Hc; apply N.eqb_neq in Hc;
      cbn [optcontext optname] in *; unfold ValidateOption, valid_options;
      cbn -[N.eqb String.append]; rewrite Hc; reflexivity.
  - intros option catalog H. now apply ValidateOption_from_no_rule.
Qed.

Ltac validator_cases :=
  unfold validator_body;
  match goal with
  | |- context [ValidateOption ?n ?c] => destruct (ValidateOption n c) as [[]|]
  end; cbn [bind];
  repeat match goal with
         | |- context [if streq ?a ?b then _ else _] =>
             let E := fresh "E" in destruct (streq a b) eqn:E
         end;
  repeat match goal with
         | |- context [let '(_, _) := ?p in _] => destruct p
         | |- context [if ?c then _ else _] =>
             let E := fresh "C" in destruct c eqn:E
         end.

(** What a round of the validator's loop does to [protocol] and [resource]. *)
Lemma validator_body_protocol (catalog : Oid) (st st' : validator_vars)
    (def : DefElem) :
  validator_body catalog st def = OK st' ->
  v_protocol st'
  = (if streq (defname def) FDW_OPTION_PROTOCOL
     then Some (defGetString def) else v_protocol st)
  /\ v_resource st'
     = (if streq (defname def) FDW_OPTION_RESOURCE
        then Some (defGetString def) else v_resource st).
Proof.
  validator_cases; intros [= <-]; try (split; reflexivity).
  all: by_name E;
    match goal with
    | H : streq _ _ = true |- _ => cbv in H; discriminate H
    end.
Qed.

Lemma validator_loop_protocol (catalog : Oid) (l : list DefElem)
    (st st' : validator_vars) :
  foreach (validator_body catalog) l st = OK st' ->
  (forall d, In d l -> defname d = FDW_OPTION_PROTOCOL ->
             defGetString d = EmptyString) ->
  null_or_empty (v_protocol st) = true ->
  null_or_empty (v_protocol st') = true.
Proof.
  revert st. induction l as [|e l IH]; intros st; cbn [foreach bind].
  - now intros [= <-].
  - destruct (validator_body catalog st e) as [s1|err] eqn:B; cbn [bind];
      [|discriminate].
    intros L Hl N. apply (IH s1 L); [intros d I; apply Hl; now right|].
    destruct (validator_body_protocol _ _ _ _ B) as [-> _].
    destruct (streq (defname e) FDW_OPTION_PROTOCOL) eqn:E; [|assumption].
    apply streq_true in E. rewrite (Hl e (or_introl eq_refl) E). reflexivity.
Qed.

Lemma validator_loop_resource (catalog : Oid) (l : list DefElem)
    (st st' : validator_vars) :
  foreach (validator_body catalog) l st = OK st' ->
  (forall d, In d l -> defname d = FDW_OPTION_RESOURCE ->
             defGetString d = EmptyString) ->
  null_or_empty (v_resource st) = true ->
  null_or_empty (v_resource st') = true.
Proof.
  revert st. induction l as [|e l IH]; intros st; cbn [foreach bind].
  - now intros [= <-].
  - destruct (validator_body catalog st e) as [s1|err] eqn:B; cbn [bind];
      [|discriminate].
    intros L Hl N. apply (IH s1 L); [intros d I; apply Hl; now right|].
    destruct (validator_body_protocol _ _ _ _ B) as [_ ->].
    destruct (streq (defname e) FDW_OPTION_RESOURCE) eqn:E; [|assumption].
    apply streq_true in E. rewrite (Hl e (or_introl eq_refl) E). reflexivity.
Qed.

(** C6, as amended.  When every option of the list passes the checks of the
    loop: at the wrapper, a list with no protocol option, or with empty ones
    only, is refused for want of the protocol; at the foreign table, a list
    with no resource option, or with empty ones only, is refused for want of
    the resource; and the two errors are raised at no other catalog. *)
Theorem required_options (options_list : list DefElem) (catalog : Oid)
    (st : validator_vars) :
  foreach (validator_body catalog) options_list validator_init = OK st ->
  (catalog = ForeignDataWrapperRelationId ->
   (forall d, In d options_list -> defname d = FDW_OPTION_PROTOCOL ->
              defGetString d = EmptyString) ->
   pxf_fdw_validator options_list catalog = ERROR protocol_needed)
  /\ (catalog = ForeignTableRelationId ->
      (forall d, In d options_list -> defname d = FDW_OPTION_RESOURCE ->
                 defGetString d = EmptyString) ->
      pxf_fdw_validator options_list catalog = ERROR resource_needed)
  /\ (check_protocol catalog st = ERROR protocol_needed ->
      catalog = ForeignDataWrapperRelationId)
  /\ (check_resource catalog st = ERROR resource_needed ->
      catalog = ForeignTableRelationId)
  /\ (catalog <> ForeignDataWrapperRelationId ->
      catalog <> ForeignTableRelationId ->
      pxf_fdw_validator options_list catalog
      = do _ <- check_reject_limit st;
        ValidateCopyOptions (v_copy_options st) catalog).
Proof.
  intros L. unfold pxf_fdw_validator. rewrite L. cbn [bind].
  split; [|split; [|split; [|split]]].
  - intros -> Hl. unfold check_protocol.
    rewrite (validator_loop_protocol _ _ _ _ L Hl eq_refl). reflexivity.
  - intros -> Hl. unfold check_protocol, check_resource.
    rewrite (validator_loop_resource _ _ _ _ L Hl eq_refl). reflexivity.
  - unfold check_protocol.
    destruct (N.eqb_spec catalog ForeignDataWrapperRelationId) as [E|E];
      [intros _; exact E | cbn [andb]; discriminate].
  - unfold check_resource.
    destruct (N.eqb_spec catalog ForeignTableRelationId) as [E|E];
      [intros _; exact E | cbn [andb]; discriminate].
  - intros N1 N2. unfold check_protocol, check_resource.
    apply N.eqb_neq in N1, N2. rewrite N1, N2. reflexivity.
Qed.

Lemma append_valid_names_none (entries : list PxfFdwOption) (catalog : Oid)
    (buf : string) :
  (forall opt, In opt entries -> (catalog =? optcontext opt)%N = false) ->
  append_valid_names entries catalog buf = buf
  /\ filter (fun opt => (catalog =? optcontext opt)%N) entries = [].
Proof.
  induction entries as [|opt rest IH]; intros H; cbn [append_valid_names filter].
  - now split.
  - rewrite (H opt (or_introl eq_refl)). apply IH.
    intros o I. apply H. now right.
Qed.

(** The hint of the error on an invalid COPY option lists the names legal in
    the catalog in the order of [valid_copy_options]. *)
Lemma invalid_copy_option_hint (name : string) (catalog : Oid) :
  invalid_copy_option name catalog
  = ereport ERRCODE_FDW_INVALID_OPTION_NAME ("invalid option " ++ quoted name)
      (Some (hint_for (legal_copy_names catalog))).
Proof.
  destruct (N.eqb_spec catalog ForeignTableRelationId) as [->|N1];
    [reflexivity|].
  destruct (N.eqb_spec catalog AttributeRelationId) as [->|N2];
    [reflexivity|].
  apply N.eqb_neq in N1, N2.
  assert (H : forall opt, In opt valid_copy_options ->
                          (catalog =? optcontext opt)%N = false).
  { intros opt I. unfold valid_copy_options in I. cbn [In] in I.
    repeat (destruct I as [<-|I]; [assumption|]). destruct I. }
  unfold invalid_copy_option, legal_copy_names.
  destruct (append_valid_names_none _ _ EmptyString H) as [-> ->].
  reflexivity.
Qed.

(** C8, as amended.  When [ValidateCopyOptions] comes to an option that is
    not a COPY option of the catalog, the options before it having passed,
    it raises the error on that name, whose hint lists the COPY options
    legal in the catalog, comma-joined in the order of [valid_copy_options],
    or says that there are none. *)
Theorem invalid_copy_option_reported (options_list before after : list DefElem)
    (def : DefElem) (catalog : Oid) (st : copy_vars) :
  options_list = (before ++ def :: after)%list ->
  foreach (ValidateCopyOptions_body catalog) before (mkCopyVars None None [])
  = OK st ->
  IsValidCopyOption (defname def) catalog = false ->
  ValidateCopyOptions options_list catalog
  = ERROR (ereport ERRCODE_FDW_INVALID_OPTION_NAME
             ("invalid option " ++ quoted (defname def))
             (Some (hint_for (legal_copy_names catalog)))).
Proof.
  intros -> B I. unfold ValidateCopyOptions.
  rewrite foreach_app, B. cbn [bind foreach].
  unfold ValidateCopyOptions_body at 1. rewrite I. cbn [negb bind].
  now rewrite invalid_copy_option_hint.
Qed.

(** *** The reject limit *)

Lemma same_but_reject_limit_refl (a : validator_vars) : same_but_reject_limit a a.
Proof. now repeat split. Qed.

(** A round of the loop on an option that is not one of the reject limit
    neither reads nor writes the reject limit and its type. *)
Lemma validator_body_other (catalog : Oid) (e : DefElem)
    (st st' s1 : validator_vars) :
  is_reject_limit_option e = false ->
  same_but_reject_limit st st' ->
  validator_body catalog st e = OK s1 ->
  exists s1',
    validator_body catalog st' e = OK s1'
    /\ same_but_reject_limit s1 s1'
    /\ v_reject_limit s1' = v_reject_limit st'
    /\ v_reject_limit_type s1' = v_reject_limit_type st'.
Proof.
  intros H R. apply orb_false_elim in H as [H1 H2].
  destruct st as [p r t c n], st' as [p' r' t' c' n'].
  destruct R as (R1 & R2 & R3). cbn in R1, R2, R3. subst p' r' c'.
  unfold validator_body. rewrite H1, H2.
  destruct (ValidateOption (defname e) catalog) as [[]|]; cbn [bind];
    [|discriminate].
  repeat match goal with
         | |- context [if ?c then _ else _] => destruct c
         end;
    intros [= <-]; eexists; (split; [reflexivity|]); now repeat split.
Qed.

Lemma validator_body_reject_limit (st : validator_vars) (def : DefElem) :
  defname def = FDW_OPTION_REJECT_LIMIT ->
  validator_body ForeignTableRelationId st def
  = let '(value, endptr) := strtol (defGetString def) in
    if (endptr =? 0)%nat || (int_of_long value <? 1)
    then ERROR (ereport ERRCODE_FDW_INVALID_STRING_FORMAT
                  ("invalid reject_limit value '" ++ defGetString def
                   ++ "', should be a positive integer") None)
    else OK (mkValidatorVars (v_protocol st) (v_resource st)
               (v_reject_limit_type st) (v_copy_options st)
               (int_of_long value)).
Proof. destruct def as [n a]. cbn [defname]. intros ->. reflexivity. Qed.

Lemma validator_body_reject_limit_type (st : validator_vars) (def : DefElem) :
  defname def = FDW_OPTION_REJECT_LIMIT_TYPE ->
  validator_body ForeignTableRelationId st def
  = if nonzero (pg_strcasecmp (defGetString def) FDW_OPTION_REJECT_LIMIT_ROWS)
       && nonzero (pg_strcasecmp (defGetString def)
                     FDW_OPTION_REJECT_LIMIT_PERCENT)
    then ERROR (ereport ERRCODE_FDW_INVALID_STRING_FORMAT
                  ("invalid reject_limit_type value, only '"
                   ++ FDW_OPTION_REJECT_LIMIT_ROWS ++ "' and '"
                   ++ FDW_OPTION_REJECT_LIMIT_PERCENT ++ "' are supported")
                  None)
    else OK (mkValidatorVars (v_protocol st) (v_resource st)
               (defGetString def) (v_copy_options st) (v_reject_limit st)).
Proof. destruct def as [n a]. cbn [defname]. intros ->. reflexivity. Qed.

Lemma named_cons (x : string) (e : DefElem) (l : list DefElem) :
  named x (e :: l) = if streq (defname e) x then e :: named x l else named x l.
Proof. reflexivity. Qed.

Lemma named_In (x : string) (l : list DefElem) (d : DefElem) :
  In d (named x l) <-> In d l /\ defname d = x.
Proof. unfold named. rewrite filter_In, streq_true. reflexivity. Qed.

(** The loop over a list, against the loop over the list without the options
    of the reject limit: when these options are accepted one by one, the two
    loops end in states that differ in the reject limit and its type only,
    which are those of the options given. *)
Lemma validator_loop_reject_limit (n t : string) (v : Z) (l : list DefElem) :
  (forall st, validator_body ForeignTableRelationId st
                (makeDefElem FDW_OPTION_REJECT_LIMIT n)
              = OK (with_reject_limit v st)) ->
  (forall st, validator_body ForeignTableRelationId st
                (makeDefElem FDW_OPTION_REJECT_LIMIT_TYPE t)
              = OK (with_reject_limit_type t st)) ->
  (forall d, In d l -> defname d = FDW_OPTION_REJECT_LIMIT -> arg d = n) ->
  (forall d, In d l -> defname d = FDW_OPTION_REJECT_LIMIT_TYPE -> arg d = t) ->
  forall s s' sf,
    same_but_reject_limit s s' ->
    foreach (validator_body ForeignTableRelationId) (without_reject_limit l) s
    = OK sf ->
    exists sf',
      foreach (validator_body ForeignTableRelationId) l s' = OK sf'
      /\ same_but_reject_limit sf sf'
      /\ v_reject_limit sf'
         = match named FDW_OPTION_REJECT_LIMIT l with
           | [] => v_reject_limit s'
           | _ => v
           end
      /\ v_reject_limit_type sf'
         = match named FDW_OPTION_REJECT_LIMIT_TYPE l with
           | [] => v_reject_limit_type s'
           | _ => t
           end.
Proof.
  intros Hn Ht. induction l as [|e l IH]; intros Vn Vt s s' sf R L.
  - cbn in L. injection L as <-. exists s'.
    split; [reflexivity|]. split; [exact R|]. split; reflexivity.
  - assert (Vn' : forall d, In d l -> defname d = FDW_OPTION_REJECT_LIMIT ->
                            arg d = n) by (intros d I; apply Vn; now right).
    assert (Vt' : forall d, In d l -> defname d = FDW_OPTION_REJECT_LIMIT_TYPE ->
                            arg d = t) by (intros d I; apply Vt; now right).
    specialize (IH Vn' Vt').
    unfold without_reject_limit in L. cbn [filter] in L.
    fold (without_reject_limit l) in L.
    rewrite !named_cons. cbn [foreach].
    unfold is_reject_limit_option in L.
    destruct (streq (defname e) FDW_OPTION_REJECT_LIMIT) eqn:E1.
    + (* the reject limit *)
      apply streq_true in E1.
      assert (e = makeDefElem FDW_OPTION_REJECT_LIMIT n) as ->.
      { destruct e as [a b]. cbn in E1. subst a. f_equal.
        apply (Vn (makeDefElem FDW_OPTION_REJECT_LIMIT b)); [now left | reflexivity]. }
      cbn [orb negb] in L. rewrite Hn. cbn [bind].
      destruct (IH s (with_reject_limit v s') sf) as (sf' & L' & R' & A & B);
        [destruct R as (? & ? & ?); now repeat split | exact L |].
      exists sf'. repeat split; try assumption; try apply R'.
      rewrite A. now destruct (named FDW_OPTION_REJECT_LIMIT l).
    + destruct (streq (defname e) FDW_OPTION_REJECT_LIMIT_TYPE) eqn:E2.
      * (* its type *)
        apply streq_true in E2.
        assert (e = makeDefElem FDW_OPTION_REJECT_LIMIT_TYPE t) as ->.
        { destruct e as [a b]. cbn in E2. subst a. f_equal.
          apply (Vt (makeDefElem FDW_OPTION_REJECT_LIMIT_TYPE b));
            [now left | reflexivity]. }
        cbn [orb negb] in L. rewrite Ht. cbn [bind].
        destruct (IH s (with_reject_limit_type t s') sf)
          as (sf' & L' & R' & A & B);
          [destruct R as (? & ? & ?); now repeat split | exact L |].
        exists sf'. repeat split; try assumption; try apply R'.
        rewrite B. now destruct (named FDW_OPTION_REJECT_LIMIT_TYPE l).
      * (* another option *)
        cbn [orb negb foreach] in L.
        destruct (validator_body ForeignTableRelationId s e) as [s1|err] eqn:B1;
          cbn [bind] in L; [|discriminate].
        destruct (validator_body_other ForeignTableRelationId e s s' s1) as (s1' & B1' & R1 & A1 & A2);
          [unfold is_reject_limit_option; now rewrite E1, E2 | exact R | exact B1 |].
        rewrite B1'. cbn [bind].
        destruct (IH s1 s1' sf R1 L) as (sf' & L' & R' & A & B).
        exists sf'. repeat split; try assumption; try apply R'.
        -- now rewrite A, A1.
        -- now rewrite B, A2.
Qed.

(** The same, when the reject limit given is one the loop refuses. *)
Lemma validator_loop_reject_limit_refused (n t : string) (err : ErrorData)
    (l : list DefElem) :
  (forall st, validator_body ForeignTableRelationId st
                (makeDefElem FDW_OPTION_REJECT_LIMIT n) = ERROR err) ->
  (forall st, validator_body ForeignTableRelationId st
                (makeDefElem FDW_OPTION_REJECT_LIMIT_TYPE t)
              = OK (with_reject_limit_type t st)) ->
  (forall d, In d l -> defname d = FDW_OPTION_REJECT_LIMIT -> arg d = n) ->
  (forall d, In d l -> defname d = FDW_OPTION_REJECT_LIMIT_TYPE -> arg d = t) ->
  named FDW_OPTION_REJECT_LIMIT l <> [] ->
  forall s s' sf,
    same_but_reject_limit s s' ->
    foreach (validator_body ForeignTableRelationId) (without_reject_limit l) s
    = OK sf ->
    foreach (validator_body ForeignTableRelationId) l s' = ERROR err.
Proof.
  intros Hn Ht. induction l as [|e l IH]; intros Vn Vt Has s s' sf R L.
  - now contradiction Has.
  - assert (Vn' : forall d, In d l -> defname d = FDW_OPTION_REJECT_LIMIT ->
                            arg d = n) by (intros d I; apply Vn; now right).
    assert (Vt' : forall d, In d l -> defname d = FDW_OPTION_REJECT_LIMIT_TYPE ->
                            arg d = t) by (intros d I; apply Vt; now right).
    specialize (IH Vn' Vt').
    unfold without_reject_limit in L. cbn [filter] in L.
    fold (without_reject_limit l) in L.
    rewrite named_cons in Has. cbn [foreach].
    unfold is_reject_limit_option in L.
    destruct (streq (defname e) FDW_OPTION_REJECT_LIMIT) eqn:E1.
    + apply streq_true in E1.
      assert (e = makeDefElem FDW_OPTION_REJECT_LIMIT n) as ->.
      { destruct e as [a b]. cbn in E1. subst a. f_equal.
        apply (Vn (makeDefElem FDW_OPTION_REJECT_LIMIT b)); [now left | reflexivity]. }
      now rewrite Hn.
    + destruct (streq (defname e) FDW_OPTION_REJECT_LIMIT_TYPE) eqn:E2.
      * apply streq_true in E2.
        assert (e = makeDefElem FDW_OPTION_REJECT_LIMIT_TYPE t) as ->.
        { destruct e as [a b]. cbn in E2. subst a. f_equal.
          apply (Vt (makeDefElem FDW_OPTION_REJECT_LIMIT_TYPE b));
            [now left | reflexivity]. }
        cbn [orb negb] in L. rewrite Ht. cbn [bind].
        apply (IH Has s _ sf); [|exact L].
        destruct R as (? & ? & ?); now repeat split.
      * cbn [orb negb foreach] in L.
        destruct (validator_body ForeignTableRelationId s e) as [s1|err'] eqn:B1;
          cbn [bind] in L; [|discriminate].
        destruct (validator_body_other ForeignTableRelationId e s s' s1) as (s1' & B1' & R1 & _);
          [unfold is_reject_limit_option; now rewrite E1, E2 | exact R | exact B1 |].
        rewrite B1'. cbn [bind]. now apply (IH Has s1 s1' sf).
Qed.

Lemma named_singleton (x : string) (l : list DefElem) (d0 : DefElem) :
  named x l = [d0] ->
  forall d, In d l -> defname d = x -> arg d = arg d0.
Proof.
  intros H d I E. assert (I' : In d (named x l)) by now apply named_In.
  rewrite H in I'. destruct I' as [<-|[]]. reflexivity.
Qed.

(** What the validity of an option list says of the state its loop ends in. *)
Lemma pxf_fdw_validator_OK (l : list DefElem) (catalog : Oid) :
  pxf_fdw_validator l catalog = OK tt ->
  exists sf,
    foreach (validator_body catalog) l validator_init = OK sf
    /\ check_protocol catalog sf = OK tt
    /\ check_resource catalog sf = OK tt
    /\ ValidateCopyOptions (v_copy_options sf) catalog = OK tt.
Proof.
  unfold pxf_fdw_validator.
  destruct (foreach (validator_body catalog) l validator_init) as [sf|e];
    cbn [bind]; [|discriminate].
  destruct (check_protocol catalog sf) as [[]|e] eqn:P; cbn [bind];
    [|discriminate].
  destruct (check_resource catalog sf) as [[]|e] eqn:Q; cbn [bind];
    [|discriminate].
  destruct (check_reject_limit sf) as [[]|e]; cbn [bind]; [|discriminate].
  intros H. exists sf. now repeat split.
Qed.

(** A list whose other options are valid, with a reject limit and possibly
    a type that the loop accepts, is judged by the check of the limit against
    the type, which is rows when none is given. *)
Lemma pxf_fdw_validator_reject_limit_type (n t : string) (v : Z)
    (l : list DefElem) :
  (forall st, validator_body ForeignTableRelationId st
                (makeDefElem FDW_OPTION_REJECT_LIMIT n)
              = OK (with_reject_limit v st)) ->
  (forall st, validator_body ForeignTableRelationId st
                (makeDefElem FDW_OPTION_REJECT_LIMIT_TYPE t)
              = OK (with_reject_limit_type t st)) ->
  pxf_fdw_validator (without_reject_limit l) ForeignTableRelationId = OK tt ->
  named FDW_OPTION_REJECT_LIMIT l = [makeDefElem FDW_OPTION_REJECT_LIMIT n] ->
  (forall d, In d l -> defname d = FDW_OPTION_REJECT_LIMIT_TYPE -> arg d = t) ->
  pxf_fdw_validator l ForeignTableRelationId
  = check_reject_limit
      (mkValidatorVars None None
         match named FDW_OPTION_REJECT_LIMIT_TYPE l with
         | [] => FDW_OPTION_REJECT_LIMIT_ROWS
         | _ => t
         end [] v).
Proof.
  intros Hn Ht Valid Nn Vt.
  apply pxf_fdw_validator_OK in Valid as (sf & L & P & Q & C).
  destruct (validator_loop_reject_limit n t v l Hn Ht
              (named_singleton _ _ _ Nn) Vt
              validator_init validator_init sf
              (same_but_reject_limit_refl _) L)
    as (sf' & L' & (R1 & R2 & R3) & A & B).
  rewrite Nn in A.
  unfold pxf_fdw_validator. rewrite L'. cbn [bind].
  unfold check_protocol, check_resource in *.
  rewrite <- R1, <- R2, <- R3, P, Q, C. cbn [bind].
  unfold check_reject_limit. rewrite A, B.
  cbn [v_reject_limit v_reject_limit_type validator_init].
  repeat match goal with
         | |- context [if ?c then _ else _] => destruct c
         end; reflexivity.
Qed.

Lemma pxf_fdw_validator_reject_limit (n t : string) (v : Z) (l : list DefElem) :
  (forall st, validator_body ForeignTableRelationId st
                (makeDefElem FDW_OPTION_REJECT_LIMIT n)
              = OK (with_reject_limit v st)) ->
  (forall st, validator_body ForeignTableRelationId st
                (makeDefElem FDW_OPTION_REJECT_LIMIT_TYPE t)
              = OK (with_reject_limit_type t st)) ->
  pxf_fdw_validator (without_reject_limit l) ForeignTableRelationId = OK tt ->
  named FDW_OPTION_REJECT_LIMIT l = [makeDefElem FDW_OPTION_REJECT_LIMIT n] ->
  named FDW_OPTION_REJECT_LIMIT_TYPE l
  = [makeDefElem FDW_OPTION_REJECT_LIMIT_TYPE t] ->
  pxf_fdw_validator l ForeignTableRelationId
  = check_reject_limit (mkValidatorVars None None t [] v).
Proof.
  intros Hn Ht Valid Nn Nt.
  rewrite (pxf_fdw_validator_reject_limit_type n t v l Hn Ht Valid Nn
             (named_singleton _ _ _ Nt)).
  now rewrite Nt.
Qed.

(** C5.  At the foreign table, the other options being valid: the reject
    limit 1 counted in rows is refused and 2 is accepted; counted in
    percent, 0 and 101 are refused and 100 is accepted; each refusal is an
    error of invalid string format. *)
Theorem reject_limit_boundary (options_list : list DefElem) :
  pxf_fdw_validator (without_reject_limit options_list) ForeignTableRelationId
  = OK tt ->
  (named FDW_OPTION_REJECT_LIMIT options_list
   = [makeDefElem FDW_OPTION_REJECT_LIMIT "1"] ->
   named FDW_OPTION_REJECT_LIMIT_TYPE options_list
   = [makeDefElem FDW_OPTION_REJECT_LIMIT_TYPE "rows"] ->
   pxf_fdw_validator options_list ForeignTableRelationId
   = ERROR (ereport ERRCODE_FDW_INVALID_STRING_FORMAT
       "invalid (ROWS) reject_limit value '1', valid values are 2 or larger"
       None))
  /\ (named FDW_OPTION_REJECT_LIMIT options_list
      = [makeDefElem FDW_OPTION_REJECT_LIMIT "2"] ->
      named FDW_OPTION_REJECT_LIMIT_TYPE options_list
      = [makeDefElem FDW_OPTION_REJECT_LIMIT_TYPE "rows"] ->
      pxf_fdw_validator options_list ForeignTableRelationId = OK tt)
  /\ (named FDW_OPTION_REJECT_LIMIT options_list
      = [makeDefElem FDW_OPTION_REJECT_LIMIT "0"] ->
      named FDW_OPTION_REJECT_LIMIT_TYPE options_list
      = [makeDefElem FDW_OPTION_REJECT_LIMIT_TYPE "percent"] ->
      pxf_fdw_validator options_list ForeignTableRelationId
      = ERROR (ereport ERRCODE_FDW_INVALID_STRING_FORMAT
          "invalid reject_limit value '0', should be a positive integer"
          None))
  /\ (named FDW_OPTION_REJECT_LIMIT options_list
      = [makeDefElem FDW_OPTION_REJECT_LIMIT "100"] ->
      named FDW_OPTION_REJECT_LIMIT_TYPE options_list
      = [makeDefElem FDW_OPTION_REJECT_LIMIT_TYPE "percent"] ->
      pxf_fdw_validator options_list ForeignTableRelationId = OK tt)
  /\ (named FDW_OPTION_REJECT_LIMIT options_list
      = [makeDefElem FDW_OPTION_REJECT_LIMIT "101"] ->
      named FDW_OPTION_REJECT_LIMIT_TYPE options_list
      = [makeDefElem FDW_OPTION_REJECT_LIMIT_TYPE "percent"] ->
      pxf_fdw_validator options_list ForeignTableRelationId
      = ERROR (ereport ERRCODE_FDW_INVALID_STRING_FORMAT
          "invalid (PERCENT) reject_limit value '101', valid values are 1 to 100"
          None)).
Proof.
  intros Valid. repeat split; intros Nn Nt.
  - now rewrite (pxf_fdw_validator_reject_limit "1" "rows" 1 options_list).
  - now rewrite (pxf_fdw_validator_reject_limit "2" "rows" 2 options_list).
  - unfold pxf_fdw_validator.
    apply pxf_fdw_validator_OK in Valid as (sf & L & _).
    rewrite (validator_loop_reject_limit_refused "0" "percent"
               (ereport ERRCODE_FDW_INVALID_STRING_FORMAT
                  "invalid reject_limit value '0', should be a positive integer"
                  None) options_list) with (s := validator_init) (sf := sf);
      try reflexivity; try assumption.
    + now apply named_singleton with (d0 := makeDefElem FDW_OPTION_REJECT_LIMIT "0").
    + now apply named_singleton
        with (d0 := makeDefElem FDW_OPTION_REJECT_LIMIT_TYPE "percent").
    + now rewrite Nn.
    + apply same_but_reject_limit_refl.
  - now rewrite (pxf_fdw_validator_reject_limit "100" "percent" 100 options_list).
  - now rewrite (pxf_fdw_validator_reject_limit "101" "percent" 101 options_list).
Qed.

(** *** Reading the reject limit *)

Lemma strtol_digits_stop (rest : string) (acc : Z) (k : nat) :
  starts_with_digit rest = false -> strtol_digits rest acc k = (acc, k).
Proof.
  destruct rest as [|c r]; cbn [starts_with_digit strtol_digits];
    [reflexivity|].
  now destruct (digit_value c).
Qed.

(** The digit loop on the decimal writing of a number, from a positive
    accumulator: it follows [Pos.of_uint_acc]. *)
Lemma strtol_digits_acc (rest : string) :
  starts_with_digit rest = false ->
  forall (d : Decimal.uint) (p : positive) (k : nat),
    strtol_digits (NilEmpty.string_of_uint d ++ rest) (Z.pos p) k
    = (Z.pos (Pos.of_uint_acc d p), (k + Decimal.nb_digits d)%nat).
Proof.
  intros Hr. induction d as [|d IH|d IH|d IH|d IH|d IH|d IH|d IH|d IH|d IH|d IH];
    intros p k;
    cbn [NilEmpty.string_of_uint String.append Decimal.nb_digits
         Pos.of_uint_acc];
    try (rewrite strtol_digits_stop by assumption; f_equal; lia);
    cbn [strtol_digits];
    match goal with
    | |- context [digit_value ?c] =>
        let v := eval vm_compute in (digit_value c) in
        change (digit_value c) with v
    end;
    cbv iota;
    lazymatch goal with
    | |- strtol_digits _ ?a _ = (Z.pos (Pos.of_uint_acc _ ?x), _) =>
        replace a with (Z.pos x) by lia
    end;
    rewrite IH; f_equal; lia.
Qed.

(** From 0, it follows [Pos.of_uint]. *)
Lemma strtol_digits_uint (rest : string) :
  starts_with_digit rest = false ->
  forall (d : Decimal.uint) (k : nat),
    strtol_digits (NilEmpty.string_of_uint d ++ rest) 0 k
    = (Z.of_N (Pos.of_uint d), (k + Decimal.nb_digits d)%nat).
Proof.
  intros Hr. induction d as [|d IH|d IH|d IH|d IH|d IH|d IH|d IH|d IH|d IH|d IH];
    intros k;
    cbn [NilEmpty.string_of_uint String.append Decimal.nb_digits Pos.of_uint];
    try (rewrite strtol_digits_stop by assumption; f_equal; lia);
    cbn [strtol_digits];
    match goal with
    | |- context [digit_value ?c] =>
        let v := eval vm_compute in (digit_value c) in
        change (digit_value c) with v
    end;
    cbv iota; change (10 * 0 + 0) with 0;
    try (rewrite IH; f_equal; lia);
    lazymatch goal with
    | |- strtol_digits _ ?a _ = _ =>
        let v := eval vm_compute in a in
        change a with v
    end;
    rewrite strtol_digits_acc by assumption;
    cbn [Z.of_N]; f_equal; lia.
Qed.

(** A text that begins with a digit has no white space nor sign to skip. *)
Lemma strtol_unsigned (s : string) :
  starts_with_digit s = true ->
  strtol s
  = match strtol_digits s 0 0 with
    | (_, O) => (0, 0%nat)
    | (v, S n) => (clamp_long v, S n)
    end.
Proof.
  destruct s as [|c r]; [discriminate|].
  destruct c as [[] [] [] [] [] [] [] []]; try discriminate; intros _;
    unfold strtol; cbn [skip_spaces];
    match goal with
    | |- context [isspace ?c] =>
        let v := eval vm_compute in (isspace c) in
        change (isspace c) with v
    end;
    cbv iota;
    destruct (strtol_digits _ 0 0) as [v [|n]]; reflexivity.
Qed.

(** The decimal writing of a positive number, followed by a text that does
    not go on with a digit, reads as that number. *)
Lemma strtol_format_d (n : Z) (rest : string) :
  0 < n <= LONG_MAX ->
  starts_with_digit rest = false ->
  exists k, strtol (format_d n ++ rest) = (n, S k).
Proof.
  intros Hn Hr. destruct n as [|p|p]; try lia.
  unfold format_d. cbn [Z.to_int NilZero.string_of_int].
  assert (E : NilZero.string_of_uint (Pos.to_uint p)
              = NilEmpty.string_of_uint (Pos.to_uint p)).
  { pose proof (DecimalPos.Unsigned.to_uint_nonnil p) as N.
    destruct (Pos.to_uint p); [contradiction|reflexivity..]. }
  rewrite E.
  assert (S1 : starts_with_digit
                 (NilEmpty.string_of_uint (Pos.to_uint p) ++ rest) = true).
  { pose proof (DecimalPos.Unsigned.to_uint_nonnil p) as N.
    destruct (Pos.to_uint p); [contradiction|reflexivity..]. }
  rewrite (strtol_unsigned _ S1), (strtol_digits_uint rest Hr).
  rewrite DecimalPos.Unsigned.of_to. cbn [Z.of_N Nat.add].
  pose proof (DecimalPos.Unsigned.to_uint_nonnil p) as N.
  destruct (Decimal.nb_digits (Pos.to_uint p)) as [|k] eqn:K.
  - destruct (Pos.to_uint p); [contradiction|discriminate..].
  - exists k. f_equal. unfold clamp_long.
    destruct (Z.ltb_spec (Z.pos p) LONG_MIN); [unfold LONG_MIN in *; lia|].
    destruct (Z.ltb_spec LONG_MAX (Z.pos p)); [lia|reflexivity].
Qed.

Lemma int_of_long_small (v : Z) :
  - 2 ^ 31 <= v <= INT_MAX -> int_of_long v = v.
Proof.
  unfold INT_MAX, int_of_long. intros H.
  rewrite Z.mod_small; lia.
Qed.

(* ------------------------------------------------------------------------- *)
(** ** What an accepted option list is like *)

(** A loop that ends well has run every round well. *)
Lemma foreach_rounds {S : Type} (body : S -> DefElem -> result S)
    (l : list DefElem) (st st' : S) :
  foreach body l st = OK st' ->
  forall d, In d l -> exists s s', body s d = OK s'.
Proof.
  revert st. induction l as [|e l IH]; intros st L d I; [destruct I|].
  cbn [foreach] in L.
  destruct (body st e) as [s1|err] eqn:B; cbn [bind] in L; [|discriminate].
  destruct I as [<-|I]; [now exists st, s1 | now apply (IH s1)].
Qed.

Lemma ValidateOption_from_OK (entries : list PxfFdwOption) (option : string)
    (catalog : Oid) :
  ValidateOption_from entries option catalog = OK tt ->
  forall entry, In entry entries -> optname entry = option ->
                optcontext entry = catalog.
Proof.
  induction entries as [|e rest IH]; intros H entry I Hn; [destruct I|].
  cbn [ValidateOption_from] in H.
  destruct (streq (optname e) option) eqn:E;
    destruct (N.eqb_spec catalog (optcontext e)) as [C|C];
    cbn [andb negb] in H; try discriminate H;
    (destruct I as [<-|I]; [|now apply IH]).
  - now symmetry.
  - apply streq_false in E. contradiction.
  - apply streq_false in E. contradiction.
Qed.

(** What a round of the validator's loop that ends well has checked. *)
Lemma validator_body_OK (catalog : Oid) (s s' : validator_vars) (d : DefElem) :
  validator_body catalog s d = OK s' ->
  ValidateOption (defname d) catalog = OK tt
  /\ (defname d = FDW_OPTION_WIRE_FORMAT ->
      defGetString d = TextFormatName
      \/ defGetString d = GpdbWritableFormatName)
  /\ (defname d = FDW_OPTION_REJECT_LIMIT ->
      snd (strtol (defGetString d)) <> 0%nat /\ 1 <= atoi (defGetString d))
  /\ (defname d = FDW_OPTION_REJECT_LIMIT_TYPE ->
      pg_strcasecmp (defGetString d) FDW_OPTION_REJECT_LIMIT_ROWS = 0
      \/ pg_strcasecmp (defGetString d) FDW_OPTION_REJECT_LIMIT_PERCENT = 0).
Proof.
  unfold validator_body.
  destruct (ValidateOption (defname d) catalog) as [[]|]; cbn [bind];
    [|discriminate].
  intros B. split; [reflexivity|].
  split; [|split]; intros Hn; rewrite Hn in B.
  - change (streq FDW_OPTION_WIRE_FORMAT FDW_OPTION_PROTOCOL) with false in B.
    change (streq FDW_OPTION_WIRE_FORMAT FDW_OPTION_RESOURCE) with false in B.
    change (streq FDW_OPTION_WIRE_FORMAT FDW_OPTION_WIRE_FORMAT) with true in B.
    cbv iota in B.
    destruct (streq TextFormatName (defGetString d)) eqn:E1;
      [left; symmetry; now apply streq_true|].
    destruct (streq GpdbWritableFormatName (defGetString d)) eqn:E2;
      [right; symmetry; now apply streq_true|].
    discriminate B.
  - change (streq FDW_OPTION_REJECT_LIMIT FDW_OPTION_PROTOCOL) with false in B.
    change (streq FDW_OPTION_REJECT_LIMIT FDW_OPTION_RESOURCE) with false in B.
    change (streq FDW_OPTION_REJECT_LIMIT FDW_OPTION_WIRE_FORMAT) with false in B.
    change (streq FDW_OPTION_REJECT_LIMIT FDW_OPTION_FORMAT) with false in B.
    change (streq FDW_OPTION_REJECT_LIMIT FDW_OPTION_REJECT_LIMIT) with true in B.
    cbv iota in B. unfold atoi.
    destruct (strtol (defGetString d)) as [value endptr]. cbn [fst snd].
    destruct endptr as [|n]; [discriminate B|]. cbn [Nat.eqb orb] in B.
    destruct (Z.ltb_spec (int_of_long value) 1); [discriminate B|].
    split; [discriminate | assumption].
  - change (streq FDW_OPTION_REJECT_LIMIT_TYPE FDW_OPTION_PROTOCOL) with false in B.
    change (streq FDW_OPTION_REJECT_LIMIT_TYPE FDW_OPTION_RESOURCE) with false in B.
    change (streq FDW_OPTION_REJECT_LIMIT_TYPE FDW_OPTION_WIRE_FORMAT) with false in B.
    change (streq FDW_OPTION_REJECT_LIMIT_TYPE FDW_OPTION_FORMAT) with false in B.
    change (streq FDW_OPTION_REJECT_LIMIT_TYPE FDW_OPTION_REJECT_LIMIT) with false in B.
    change (streq FDW_OPTION_REJECT_LIMIT_TYPE FDW_OPTION_REJECT_LIMIT_TYPE)
      with true in B.
    cbv iota in B. unfold nonzero in B.
    destruct (Z.eqb_spec (pg_strcasecmp (defGetString d)
                            FDW_OPTION_REJECT_LIMIT_ROWS) 0) as [E1|E1];
      [now left|].
    destruct (Z.eqb_spec (pg_strcasecmp (defGetString d)
                            FDW_OPTION_REJECT_LIMIT_PERCENT) 0) as [E2|E2];
      [now right|].
    discriminate B.
Qed.

(** X1.  In an option list that [pxf_fdw_validator] accepts for a catalog,
    every option that has an entry in [valid_options] stands at the catalog
    of that entry: protocol is accepted at the wrapper only, and resource,
    format, wire_format, reject_limit and reject_limit_type at the foreign
    table only. *)
Theorem accepted_options_at_their_level (options_list : list DefElem)
    (catalog : Oid) :
  pxf_fdw_validator options_list catalog = OK tt ->
  forall d entry,
    In d options_list -> In entry valid_options ->
    optname entry = defname d -> optcontext entry = catalog.
Proof.
  intros Valid d entry I Ie Hn.
  apply pxf_fdw_validator_OK in Valid as (sf & L & _).
  destruct (foreach_rounds _ _ _ _ L d I) as (s & s' & B).
  apply validator_body_OK in B as (V & _).
  now apply (ValidateOption_from_OK _ _ _ V).
Qed.

(** Every option of an accepted list has passed a round of the loop. *)
Lemma accepted_round (options_list : list DefElem) (catalog : Oid) :
  pxf_fdw_validator options_list catalog = OK tt ->
  forall d, In d options_list ->
    exists s s', validator_body catalog s d = OK s'.
Proof.
  intros Valid d I.
  apply pxf_fdw_validator_OK in Valid as (sf & L & _).
  exact (foreach_rounds _ _ _ _ L d I).
Qed.

(** X2.  In an option list that [pxf_fdw_validator] accepts, every
    wire_format is one of the two wire format names, every reject_limit
    starts with digits that [strtol] reads and is at least 1 as an [int],
    and every reject_limit_type is rows or percent up to case. *)
Theorem accepted_option_values (options_list : list DefElem) (catalog : Oid) :
  pxf_fdw_validator options_list catalog = OK tt ->
  forall d, In d options_list ->
    (defname d = FDW_OPTION_WIRE_FORMAT ->
     defGetString d = TextFormatName
     \/ defGetString d = GpdbWritableFormatName)
    /\ (defname d = FDW_OPTION_REJECT_LIMIT ->
        snd (strtol (defGetString d)) <> 0%nat
        /\ 1 <= atoi (defGetString d))
    /\ (defname d = FDW_OPTION_REJECT_LIMIT_TYPE ->
        pg_strcasecmp (defGetString d) FDW_OPTION_REJECT_LIMIT_ROWS = 0
        \/ pg_strcasecmp (defGetString d) FDW_OPTION_REJECT_LIMIT_PERCENT = 0).
Proof.
  intros Valid d I.
  apply pxf_fdw_validator_OK in Valid as (sf & L & _).
  destruct (foreach_rounds _ _ _ _ L d I) as (s & s' & B).
  now apply validator_body_OK in B as (_ & V).
Qed.

(** Each round of the validator's loop appends the option to the COPY
    options when it is a row-format option, as the resolver's loop does. *)
Lemma validator_body_copy_options (catalog : Oid) (st st' : validator_vars)
    (def : DefElem) :
  validator_body catalog st def = OK st' ->
  v_copy_options st'
  = (v_copy_options st ++ filter is_row_format_option [def])%list.
Proof.
  unfold validator_body, is_row_format_option. cbn [filter].
  destruct (ValidateOption (defname def) catalog) as [[]|]; cbn [bind];
    [|discriminate].
  destruct (streq (defname def) FDW_OPTION_PROTOCOL) eqn:E1;
    [by_name E1; intros [= <-]; cbn; now rewrite app_nil_r|].
  destruct (streq (defname def) FDW_OPTION_RESOURCE) eqn:E2;
    [by_name E2; intros [= <-]; cbn; now rewrite app_nil_r|].
  destruct (streq (defname def) FDW_OPTION_WIRE_FORMAT) eqn:E3.
  { by_name E3. destruct (_ && _); intros [= <-]; cbn; now rewrite app_nil_r. }
  destruct (streq (defname def) FDW_OPTION_FORMAT) eqn:E4.
  { destruct (_ || _); intros [= <-]; cbn; [reflexivity | now rewrite app_nil_r]. }
  destruct (streq (defname def) FDW_OPTION_REJECT_LIMIT) eqn:E5.
  { by_name E5. destruct (strtol _). destruct (_ || _); intros [= <-]; cbn.
    now rewrite app_nil_r. }
  destruct (streq (defname def) FDW_OPTION_REJECT_LIMIT_TYPE) eqn:E6.
  { by_name E6. destruct (_ && _); intros [= <-]; cbn; now rewrite app_nil_r. }
  destruct (IsCopyOption (defname def)); intros [= <-]; cbn;
    [reflexivity | now rewrite app_nil_r].
Qed.

Lemma validator_loop_copy_options (catalog : Oid) (l : list DefElem)
    (st st' : validator_vars) :
  foreach (validator_body catalog) l st = OK st' ->
  v_copy_options st'
  = (v_copy_options st ++ filter is_row_format_option l)%list.
Proof.
  revert st. induction l as [|d l IH]; intros st; cbn [foreach bind filter].
  - intros [= <-]. now rewrite app_nil_r.
  - destruct (validator_body catalog st d) as [st1|e] eqn:E; cbn [bind];
      [|discriminate].
    intros H. apply IH in H. rewrite H.
    rewrite (validator_body_copy_options _ _ _ _ E). cbn [filter].
    destruct (is_row_format_option d); cbn; rewrite <- ?app_assoc;
      rewrite ?app_nil_r; reflexivity.
Qed.

Lemma ValidateCopyOptions_valid (l : list DefElem) (catalog : Oid) :
  ValidateCopyOptions l catalog = OK tt ->
  forall d, In d l -> IsValidCopyOption (defname d) catalog = true.
Proof.
  unfold ValidateCopyOptions. intros H d I.
  destruct (foreach (ValidateCopyOptions_body catalog) l
              (mkCopyVars None None [])) as [st|e] eqn:L;
    cbn [bind] in H; [|discriminate].
  destruct (foreach_rounds _ _ _ _ L d I) as (s & s' & B).
  unfold ValidateCopyOptions_body in B.
  destruct (IsValidCopyOption (defname d) catalog); [reflexivity|discriminate].
Qed.

(** The COPY options are legal at the foreign table and at the attribute
    only. *)
Lemma IsValidCopyOption_catalog (option : string) (context : Oid) :
  IsValidCopyOption option context = true ->
  context = ForeignTableRelationId \/ context = AttributeRelationId.
Proof.
  unfold IsValidCopyOption. rewrite existsb_exists.
  intros (entry & I & H). apply andb_prop in H as [H _].
  apply N.eqb_eq in H. subst context.
  unfold valid_copy_options in I. cbn [In] in I.
  repeat (destruct I as [<-|I]; [auto|]). destruct I.
Qed.

(** An accepted option that bears the name of a COPY option is legal. *)
Lemma validator_copy_option_legal (options_list : list DefElem)
    (catalog : Oid) (d : DefElem) :
  pxf_fdw_validator options_list catalog = OK tt ->
  In d options_list -> IsCopyOption (defname d) = true ->
  IsValidCopyOption (defname d) catalog = true.
Proof.
  intros Valid I C.
  apply pxf_fdw_validator_OK in Valid as (sf & L & _ & _ & VC).
  destruct (streq (defname d) FDW_OPTION_FORMAT) eqn:F.
  - destruct (foreach_rounds _ _ _ _ L d I) as (s & s' & B).
    apply validator_body_OK in B as (VO & _).
    apply streq_true in F. rewrite F in *.
    rewrite <- (ValidateOption_from_OK _ _ _ VO
                  (mkOption FDW_OPTION_FORMAT ForeignTableRelationId));
      [reflexivity | right; right; now left | reflexivity].
  - apply (ValidateCopyOptions_valid _ _ VC).
    rewrite (validator_loop_copy_options _ _ _ _ L). cbn [app].
    apply filter_In. split; [assumption|].
    unfold is_row_format_option. now rewrite F.
Qed.

(** X3.  In an option list that [pxf_fdw_validator] accepts for a catalog,
    every option that bears the name of a COPY option is a COPY option legal
    in that catalog; so the catalog is the foreign table or the attribute,
    and a list accepted for a wrapper, a server or a user mapping has no
    COPY option. *)
Theorem accepted_copy_options_legal (options_list : list DefElem)
    (catalog : Oid) :
  pxf_fdw_validator options_list catalog = OK tt ->
  forall d, In d options_list -> IsCopyOption (defname d) = true ->
    IsValidCopyOption (defname d) catalog = true
    /\ (catalog = ForeignTableRelationId \/ catalog = AttributeRelationId).
Proof.
  intros Valid d I C.
  pose proof (validator_copy_option_legal _ _ _ Valid I C) as V.
  split; [exact V | now apply IsValidCopyOption_catalog in V].
Qed.

(** A round of the validator's loop on an option that is neither in
    [valid_options] nor a COPY option changes nothing. *)
Lemma validator_body_unknown (catalog : Oid) (st : validator_vars)
    (d : DefElem) :
  (forall entry, In entry valid_options -> optname entry <> defname d) ->
  IsCopyOption (defname d) = false ->
  validator_body catalog st d = OK st.
Proof.
  intros U C. unfold validator_body, ValidateOption.
  rewrite (ValidateOption_from_no_rule _ _ _ U). cbn [bind].
  assert (N : forall entry, In entry valid_options ->
                            streq (defname d) (optname entry) = false).
  { intros entry I. apply streq_false. intros E. now apply (U entry I). }
  unfold valid_options in N. cbn [In] in N.
  assert (N1 : streq (defname d) FDW_OPTION_PROTOCOL = false)
    by (apply (N (mkOption FDW_OPTION_PROTOCOL ForeignDataWrapperRelationId));
        tauto).
  assert (N2 : streq (defname d) FDW_OPTION_RESOURCE = false)
    by (apply (N (mkOption FDW_OPTION_RESOURCE ForeignTableRelationId)); tauto).
  assert (N3 : streq (defname d) FDW_OPTION_WIRE_FORMAT = false)
    by (apply (N (mkOption FDW_OPTION_WIRE_FORMAT ForeignTableRelationId));
        tauto).
  assert (N4 : streq (defname d) FDW_OPTION_FORMAT = false)
    by (apply (N (mkOption FDW_OPTION_FORMAT ForeignTableRelationId)); tauto).
  assert (N5 : streq (defname d) FDW_OPTION_REJECT_LIMIT = false)
    by (apply (N (mkOption FDW_OPTION_REJECT_LIMIT ForeignTableRelationId));
        tauto).
  assert (N6 : streq (defname d) FDW_OPTION_REJECT_LIMIT_TYPE = false)
    by (apply (N (mkOption FDW_OPTION_REJECT_LIMIT_TYPE
                     ForeignTableRelationId)); tauto).
  now rewrite N1, N2, N3, N4, N5, N6, C.
Qed.

(** X4.  An option whose name is neither in [valid_options] nor the name of
    a COPY option is ignored by [pxf_fdw_validator]: the list with the
    option gets the verdict of the list without it, at every catalog and
    whatever the value of the option. *)
Theorem unknown_option_ignored (before after : list DefElem) (d : DefElem)
    (catalog : Oid) :
  (forall entry, In entry valid_options -> optname entry <> defname d) ->
  IsCopyOption (defname d) = false ->
  pxf_fdw_validator (before ++ d :: after) catalog
  = pxf_fdw_validator (before ++ after) catalog.
Proof.
  intros U C. unfold pxf_fdw_validator. rewrite !foreach_app.
  destruct (foreach (validator_body catalog) before validator_init)
    as [st|e]; cbn [bind foreach]; [|reflexivity].
  now rewrite (validator_body_unknown catalog st d U C).
Qed.

(* ------------------------------------------------------------------------- *)
(** ** The COPY options *)

(** What a round of the loop of [ValidateCopyOptions] that ends well has
    done: the option is legal, each of the two force options is marked as
    seen, and every other option is appended to the list for the COPY
    code. *)
Lemma ValidateCopyOptions_body_OK (catalog : Oid) (st st' : copy_vars)
    (d : DefElem) :
  ValidateCopyOptions_body catalog st d = OK st' ->
  IsValidCopyOption (defname d) catalog = true
  /\ non_null (c_force_not_null st')
     = non_null (c_force_not_null st) || streq (defname d) "force_not_null"
  /\ non_null (c_force_null st')
     = non_null (c_force_null st) || streq (defname d) "force_null"
  /\ c_copy_options st'
     = (c_copy_options st
        ++ filter (fun def => negb (is_force_option def)) [d])%list.
Proof.
  unfold ValidateCopyOptions_body, is_force_option. cbn [filter].
  destruct (IsValidCopyOption (defname d) catalog); cbn [negb];
    [|discriminate].
  destruct (streq (defname d) "force_not_null") eqn:E1.
  { apply streq_true in E1. rewrite E1.
    destruct (non_null (c_force_not_null st)) eqn:S; [discriminate|].
    destruct (defGetBoolean d); cbn [bind]; intros [= <-]; cbn.
    rewrite orb_false_r, app_nil_r. now repeat split. }
  destruct (streq (defname d) "force_null") eqn:E2.
  { destruct (non_null (c_force_null st)) eqn:S; [discriminate|].
    destruct (defGetBoolean d); cbn [bind]; intros [= <-]; cbn.
    rewrite orb_false_r, app_nil_r. now repeat split. }
  intros [= <-]. cbn. rewrite !orb_false_r. now repeat split.
Qed.

(** A force option that the loop has passed stays marked as seen. *)
Lemma ValidateCopyOptions_loop_seen (catalog : Oid) (l : list DefElem)
    (st st' : copy_vars) :
  foreach (ValidateCopyOptions_body catalog) l st = OK st' ->
  (non_null (c_force_not_null st) = true
   \/ (exists d, In d l /\ defname d = "force_not_null") ->
   non_null (c_force_not_null st') = true)
  /\ (non_null (c_force_null st) = true
      \/ (exists d, In d l /\ defname d = "force_null") ->
      non_null (c_force_null st') = true).
Proof.
  revert st. induction l as [|e l IH]; intros st; cbn [foreach bind].
  - intros [= <-]. split; intros [S|(d & [] & _)]; exact S.
  - destruct (ValidateCopyOptions_body catalog st e) as [s1|err] eqn:B;
      cbn [bind]; [|discriminate].
    intros L. destruct (IH s1 L) as [IH1 IH2].
    apply ValidateCopyOptions_body_OK in B as (_ & S1 & S2 & _).
    split; intros H.
    + apply IH1. destruct H as [S|(d & [<-|I] & Hd)].
      * left. now rewrite S1, S.
      * left. rewrite S1, Hd. cbn. apply orb_true_r.
      * right. now exists d.
    + apply IH2. destruct H as [S|(d & [<-|I] & Hd)].
      * left. now rewrite S2, S.
      * left. rewrite S2, Hd. cbn. apply orb_true_r.
      * right. now exists d.
Qed.

(** X5.  [ValidateCopyOptions] refuses a second force_not_null, and a second
    force_null, as a conflicting or redundant option: when the options
    before it have passed and one of them bears the same name, the error is
    the syntax error on that name, whatever follows. *)
Theorem force_option_given_twice (before after : list DefElem) (d : DefElem)
    (catalog : Oid) (st : copy_vars) :
  foreach (ValidateCopyOptions_body catalog) before (mkCopyVars None None [])
  = OK st ->
  defname d = "force_not_null" \/ defname d = "force_null" ->
  (exists d0, In d0 before /\ defname d0 = defname d) ->
  ValidateCopyOptions (before ++ d :: after) catalog
  = ERROR (ereport ERRCODE_SYNTAX_ERROR "conflicting or redundant options"
             (Some ("option " ++ quoted (defname d)
                    ++ " supplied more than once for a column"))).
Proof.
  intros L Hd (d0 & I0 & H0).
  assert (V : IsValidCopyOption (defname d) catalog = true).
  { destruct (foreach_rounds _ _ _ _ L d0 I0) as (s & s' & B).
    apply ValidateCopyOptions_body_OK in B as (V & _). now rewrite <- H0. }
  destruct (ValidateCopyOptions_loop_seen _ _ _ _ L) as [S1 S2].
  unfold ValidateCopyOptions. rewrite foreach_app, L. cbn [bind foreach].
  unfold ValidateCopyOptions_body at 1. rewrite V. cbn [negb].
  destruct Hd as [Hd|Hd]; rewrite Hd in *; cbn [streq String.eqb].
  - rewrite S1; [reflexivity | right; now exists d0].
  - change (streq "force_null" "force_not_null") with false. cbv iota.
    change (streq "force_null" "force_null") with true. cbv iota.
    rewrite S2; [reflexivity | right; now exists d0].
Qed.

Lemma ValidateCopyOptions_loop_OK (catalog : Oid) (l : list DefElem) :
  (forall d, In d l -> IsValidCopyOption (defname d) catalog = true) ->
  (forall d, In d l -> is_force_option d = true ->
             exists b, defGetBoolean d = OK b) ->
  forall st,
    (List.length (named "force_not_null" l)
     + (if non_null (c_force_not_null st) then 1 else 0) <= 1)%nat ->
    (List.length (named "force_null" l)
     + (if non_null (c_force_null st) then 1 else 0) <= 1)%nat ->
    exists st',
      foreach (ValidateCopyOptions_body catalog) l st = OK st'
      /\ c_copy_options st'
         = (c_copy_options st
            ++ filter (fun def => negb (is_force_option def)) l)%list.
Proof.
  induction l as [|e l IH]; intros V G st N1 N2.
  - exists st. cbn. now rewrite app_nil_r.
  - assert (V' : forall d, In d l ->
                           IsValidCopyOption (defname d) catalog = true)
      by (intros d I; apply V; now right).
    assert (G' : forall d, In d l -> is_force_option d = true ->
                           exists b, defGetBoolean d = OK b)
      by (intros d I; apply G; now right).
    specialize (IH V' G').
    rewrite named_cons in N1, N2. cbn [foreach filter].
    assert (B : exists s1,
               ValidateCopyOptions_body catalog st e = OK s1
               /\ (List.length (named "force_not_null" l)
                   + (if non_null (c_force_not_null s1) then 1 else 0)
                   <= 1)%nat
               /\ (List.length (named "force_null" l)
                   + (if non_null (c_force_null s1) then 1 else 0) <= 1)%nat
               /\ c_copy_options s1
                  = (c_copy_options st
                     ++ filter (fun def => negb (is_force_option def)) [e])%list).
    { unfold ValidateCopyOptions_body, is_force_option in *.
      rewrite (V e (or_introl eq_refl)). cbn [negb filter].
      specialize (G e (or_introl eq_refl)).
      destruct (streq (defname e) "force_not_null") eqn:E1.
      - cbn [List.length] in N1.
        destruct (non_null (c_force_not_null st)) eqn:S; [lia|].
        destruct (G eq_refl) as [b ->]. cbn [bind orb negb].
        eexists. split; [reflexivity|]. cbn.
        apply streq_true in E1. rewrite E1 in N2. cbn in N2.
        rewrite app_nil_r. repeat split; lia.
      - destruct (streq (defname e) "force_null") eqn:E2.
        + cbn [List.length] in N2.
          destruct (non_null (c_force_null st)) eqn:S; [lia|].
          destruct (G eq_refl) as [b ->]. cbn [bind orb negb].
          eexists. split; [reflexivity|]. cbn.
          rewrite app_nil_r. repeat split; lia.
        + cbn [orb negb]. eexists. split; [reflexivity|]. cbn.
          repeat split; lia. }
    destruct B as (s1 & -> & M1 & M2 & C1). cbn [bind].
    destruct (IH s1 M1 M2) as (st' & L & C). exists st'. split; [exact L|].
    rewrite C, C1. cbn [filter].
    destruct (negb (is_force_option e)); cbn; rewrite <- ?app_assoc;
      rewrite ?app_nil_r; reflexivity.
Qed.

(** X6.  On a list whose options are all COPY options legal in the catalog,
    with force_not_null and force_null given at most once each and with
    Boolean values that [defGetBoolean] reads, [ValidateCopyOptions] hands
    the list without these two options, in its order, to the COPY code, and
    its verdict is that of the COPY code. *)
Theorem copy_options_handed_over (options_list : list DefElem) (catalog : Oid) :
  (forall d, In d options_list ->
             IsValidCopyOption (defname d) catalog = true) ->
  (forall d, In d options_list -> is_force_option d = true ->
             exists b, defGetBoolean d = OK b) ->
  (List.length (named "force_not_null" options_list) <= 1)%nat ->
  (List.length (named "force_null" options_list) <= 1)%nat ->
  ValidateCopyOptions options_list catalog
  = ProcessCopyOptions
      (filter (fun def => negb (is_force_option def)) options_list).
Proof.
  intros V G N1 N2. unfold ValidateCopyOptions.
  destruct (ValidateCopyOptions_loop_OK catalog options_list V G
              (mkCopyVars None None [])) as (st & L & C); cbn; try lia.
  rewrite L. cbn [bind]. now rewrite C.
Qed.

(* ------------------------------------------------------------------------- *)
(** ** The pass-through options *)

Lemma list_member_In (names : list string) (x : string) :
  list_member names x = true <-> In x names.
Proof.
  unfold list_member. rewrite existsb_exists. split.
  - intros (y & I & E). apply streq_true in E. now subst.
  - intros I. exists x. split; [assumption | apply streq_refl].
Qed.

(** A round of the resolver's loop appends to the pass-through options only
    an option that is neither a named field nor a COPY option, and whose
    name was not seen. *)
Lemma resolver_body_appends (st st' : resolver_vars) (def : DefElem) :
  resolver_body st def = OK st' ->
  (r_other_options st' = r_other_options st
   /\ r_other_option_names st' = r_other_option_names st)
  \/ (is_named_field (defname def) = false
      /\ IsCopyOption (defname def) = false
      /\ ~ In (defname def) (r_other_option_names st)
      /\ r_other_options st' = (r_other_options st ++ [def])%list
      /\ r_other_option_names st'
         = (r_other_option_names st ++ [defname def])%list).
Proof.
  intros B.
  destruct (resolver_body_other_options _ _ _ B) as [U|(M & A1 & A2)];
    [now left|].
  right. repeat split; try assumption.
  - destruct (is_named_field (defname def)) eqn:N; [|reflexivity].
    exfalso. unfold is_named_field in N. apply existsb_exists in N as (f & _ & E).
    apply streq_true in E.
    revert B A1. unfold resolver_body. rewrite E.
    destruct f; cbn -[atoi pg_strcasecmp Z.leb];
      repeat match goal with
             | |- context [if ?c then _ else _] => destruct c
             end;
      intros [= <-]; cbn; intros A1;
      apply (f_equal (@List.length DefElem)) in A1;
      rewrite ?length_app in A1; cbn in A1; lia.
  - destruct (IsCopyOption (defname def)) eqn:C; [|reflexivity].
    exfalso.
    pose proof (resolver_body_copy_options _ _ _ B) as CO.
    revert B A1 CO. unfold resolver_body, is_row_format_option.
    repeat match goal with
           | |- context [if streq ?a ?b then _ else _] =>
               let E := fresh "E" in destruct (streq a b) eqn:E
           end;
      rewrite ?C;
      repeat match goal with
             | |- context [if ?c then _ else _] => destruct c
             end;
      intros [= <-]; cbn; intros A1 _;
      apply (f_equal (@List.length DefElem)) in A1;
      rewrite ?length_app in A1; cbn in A1; lia.
  - intros I. apply list_member_In in I. congruence.
Qed.

(** The loop keeps the names seen equal to the names of the pass-through
    options, without repetition, and takes these options from the list it
    runs over. *)
Lemma resolver_loop_others (l : list DefElem) (st st' : resolver_vars) :
  foreach resolver_body l st = OK st' ->
  r_other_option_names st = map defname (r_other_options st) ->
  NoDup (r_other_option_names st) ->
  r_other_option_names st' = map defname (r_other_options st')
  /\ NoDup (r_other_option_names st')
  /\ forall d, In d (r_other_options st') ->
       In d (r_other_options st)
       \/ (In d l /\ is_named_field (defname d) = false
           /\ IsCopyOption (defname d) = false).
Proof.
  revert st. induction l as [|e l IH]; intros st; cbn [foreach bind].
  - intros [= <-] E N. repeat split; auto.
  - destruct (resolver_body st e) as [s1|err] eqn:B; cbn [bind];
      [|discriminate].
    intros L E N.
    destruct (resolver_body_appends _ _ _ B)
      as [[Eo En]|(G1 & G2 & New & Eo & En)].
    + destruct (IH s1 L) as (E' & N' & S'); [congruence | congruence |].
      repeat split; try assumption.
      intros d I. destruct (S' d I) as [I'|(I' & G)].
      * left. congruence.
      * right. split; [now right | assumption].
    + destruct (IH s1 L) as (E' & N' & S').
      * rewrite En, Eo, map_app, E. reflexivity.
      * rewrite En. apply NoDup_app; [assumption | | ].
        -- constructor; [intros [] | constructor].
        -- intros x Ix [<-|[]]. contradiction.
      * repeat split; try assumption.
        intros d I. destruct (S' d I) as [I'|(I' & G)].
        -- rewrite Eo in I'. apply in_app_or in I' as [I'|[<-|[]]];
             [now left|]. right. repeat split; [now left | assumption..].
        -- right. split; [now right | assumption].
Qed.

(** X7.  The pass-through options of a resolved configuration bear pairwise
    distinct names; each of them is an option of one of the four lists, and
    none is a named field or a COPY option. *)
Theorem pass_through_options_distinct table user server wrapper srv loc
    (opt : PxfOptions) :
  PxfGetOptions table user server wrapper srv loc = OK opt ->
  NoDup (map defname (options opt))
  /\ forall d, In d (options opt) ->
       In d (table ++ user ++ server ++ wrapper)
       /\ is_named_field (defname d) = false
       /\ IsCopyOption (defname d) = false.
Proof.
  intros H. apply PxfGetOptions_OK in H as (st & L & ->).
  rewrite resolver_finish_options.
  destruct (resolver_loop_others _ _ _ L eq_refl (NoDup_nil _)) as (E & N & S).
  split; [now rewrite <- E|].
  intros d I. destruct (S d I) as [[]|G]. exact G.
Qed.

(** X8.  Of the options of one name that is neither a named field nor a COPY
    option, the first in the concatenation table, user mapping, server,
    wrapper is the one kept in the pass-through options, and the only one:
    so a value at the user mapping beats one at the server, and so on. *)
Theorem pass_through_first_occurrence table user server wrapper srv loc
    (before after : list DefElem) (d : DefElem) (opt : PxfOptions) :
  (table ++ user ++ server ++ wrapper)%list = (before ++ d :: after)%list ->
  (forall e, In e before -> defname e <> defname d) ->
  is_named_field (defname d) = false ->
  IsCopyOption (defname d) = false ->
  PxfGetOptions table user server wrapper srv loc = OK opt ->
  named (defname d) (options opt) = [d].
Proof.
  intros Split Hb N C H.
  apply PxfGetOptions_OK in H as (st & L & ->).
  rewrite resolver_finish_options.
  rewrite Split, foreach_app in L.
  destruct (foreach resolver_body before resolver_init) as [s1|e] eqn:L1;
    cbn [bind] in L; [|discriminate].
  destruct (resolver_loop_before (defname d) _ _ _ L1 Hb eq_refl eq_refl)
    as [M1 N1].
  cbn [foreach] in L. rewrite (resolver_body_generic s1 d N C), M1 in L.
  cbn [bind] in L.
  apply resolver_loop_after with (x := defname d) in L as [_ ->];
    cbn [r_other_option_names r_other_options].
  - rewrite named_app, N1. unfold named. cbn [filter app].
    now rewrite streq_refl.
  - now rewrite list_member_app, streq_refl, orb_true_r.
Qed.

(* ------------------------------------------------------------------------- *)
(** ** Last occurrences, defaults and derived members *)

Lemma last_named_cons (name : string) (e : DefElem) (l : list DefElem) :
  last_named name (e :: l)
  = match last_named name l with
    | Some d => Some d
    | None => if streq (defname e) name then Some e else None
    end.
Proof.
  unfold last_named. rewrite named_cons.
  destruct (streq (defname e) name); [|now destruct (rev (named name l))].
  cbn [rev]. now destruct (rev (named name l)).
Qed.

Lemma last_named_None (name : string) (l : list DefElem) :
  last_named name l = None <-> named name l = [].
Proof.
  unfold last_named. split.
  - destruct (rev (named name l)) eqn:R; [|discriminate].
    intros _. apply (f_equal (@rev DefElem)) in R.
    now rewrite rev_involutive in R.
  - now intros ->.
Qed.

Lemma last_named_app (name : string) (l1 l2 : list DefElem) :
  last_named name (l1 ++ l2)
  = match last_named name l2 with
    | Some d => Some d
    | None => last_named name l1
    end.
Proof.
  induction l1 as [|e l1 IH]; cbn [app].
  - now destruct (last_named name l2).
  - rewrite !last_named_cons, IH.
    destruct (last_named name l2); [reflexivity|].
    reflexivity.
Qed.

Lemma last_named_In (name : string) (l : list DefElem) (d : DefElem) :
  last_named name l = Some d -> In d l /\ defname d = name.
Proof.
  unfold last_named. destruct (rev (named name l)) as [|x r] eqn:R;
    [discriminate|].
  intros [= ->]. apply named_In. apply in_rev. rewrite R. now left.
Qed.

(** After the resolver's loop, the member of a named field holds what the
    last option of that name assigns, and is as before when there is none. *)
Lemma resolver_loop_member (f : named_field) (l : list DefElem)
    (st st' : resolver_vars) :
  foreach resolver_body l st = OK st' ->
  member f (r_opt st')
  = match last_named (field_name f) l with
    | Some d => assigned f d
    | None => member f (r_opt st)
    end.
Proof.
  revert st. induction l as [|e l IH]; intros st; cbn [foreach bind].
  - now intros [= <-].
  - destruct (resolver_body st e) as [s1|err] eqn:B; cbn [bind];
      [|discriminate].
    intros L. rewrite (IH s1 L), last_named_cons.
    destruct (last_named (field_name f) l); [reflexivity|].
    destruct (streq (defname e) (field_name f)) eqn:E.
    + apply streq_true in E.
      now destruct (resolver_body_assigns f _ _ _ E B).
    + apply streq_false in E. exact (resolver_body_keeps f _ _ _ E B).
Qed.

(** The members of the configuration after the final assignments. *)
Lemma resolver_finish_members srv loc (st : resolver_vars) :
  let opt := resolver_finish srv loc st in
  protocol opt = protocol (r_opt st)
  /\ resource opt = resource (r_opt st)
  /\ format opt = format (r_opt st)
  /\ reject_limit opt = reject_limit (r_opt st)
  /\ is_reject_limit_rows opt = is_reject_limit_rows (r_opt st)
  /\ server opt = Some srv
  /\ exec_location opt = loc
  /\ pxf_host opt
     = Some match pxf_host (r_opt st) with
            | Some host => host
            | None => PXF_FDW_DEFAULT_HOST
            end
  /\ pxf_port opt
     = (if pxf_port (r_opt st) =? 0 then PXF_FDW_DEFAULT_PORT
        else pxf_port (r_opt st))
  /\ pxf_protocol opt
     = Some match pxf_protocol (r_opt st) with
            | Some p => p
            | None => PXF_FDW_DEFAULT_PROTOCOL
            end
  /\ wire_format opt
     = Some match wire_format (r_opt st) with
            | Some w => w
            | None => GetWireFormatName (format (r_opt st))
            end
  /\ profile opt
     = match format (r_opt st) with
       | Some f => Some (format_s (protocol (r_opt st)) ++ ":" ++ f)
       | None => protocol (r_opt st)
       end.
Proof.
  destruct st as [o c oo on]. destruct o.
  destruct pxf_port0, format0, pxf_host0, pxf_protocol0, wire_format0;
    cbv zeta; repeat split.
Qed.

Lemma resolver_members table user server wrapper srv loc (opt : PxfOptions) :
  PxfGetOptions table user server wrapper srv loc = OK opt ->
  exists st,
    opt = resolver_finish srv loc st
    /\ (forall f,
          member f (r_opt st)
          = match last_named (field_name f)
                    (table ++ user ++ server ++ wrapper) with
            | Some d => assigned f d
            | None => member f (r_opt resolver_init)
            end)
    /\ (last_named FDW_OPTION_PXF_PORT (table ++ user ++ server ++ wrapper)
        <> None -> 0 < pxf_port (r_opt st) < 65535).
Proof.
  intros H. apply PxfGetOptions_OK in H as (st & L & ->).
  exists st. split; [reflexivity|]. split.
  - intros f. apply (resolver_loop_member f _ _ _ L).
  - intros P. apply (resolver_loop_port_range _ _ _ L). right.
    destruct (last_named FDW_OPTION_PXF_PORT _) as [d|] eqn:E;
      [|contradiction].
    apply last_named_In in E. now exists d.
Qed.

(** X9.  The connection members and the reject limit of a resolved
    configuration come from the last option of their name in the
    concatenation of the four lists, and from the defaults when there is no
    such option: the default host, port and protocol, the reject limit -1
    and the reject limit type rows; the server name and the execution
    location are those of the server and the wrapper. *)
Theorem members_or_defaults table_options user_options server_options wrapper_options srv loc
    (opt : PxfOptions) :
  PxfGetOptions table_options user_options server_options wrapper_options srv loc = OK opt ->
  pxf_host opt
  = Some match last_named FDW_OPTION_PXF_HOST
                 (table_options ++ user_options ++ server_options
                  ++ wrapper_options) with
         | Some d => defGetString d
         | None => PXF_FDW_DEFAULT_HOST
         end
  /\ pxf_port opt
     = match last_named FDW_OPTION_PXF_PORT
               (table_options ++ user_options ++ server_options
                  ++ wrapper_options) with
       | Some d => atoi (defGetString d)
       | None => PXF_FDW_DEFAULT_PORT
       end
  /\ pxf_protocol opt
     = Some match last_named FDW_OPTION_PXF_PROTOCOL
                    (table_options ++ user_options ++ server_options
                  ++ wrapper_options) with
            | Some d => defGetString d
            | None => PXF_FDW_DEFAULT_PROTOCOL
            end
  /\ reject_limit opt
     = match last_named FDW_OPTION_REJECT_LIMIT
               (table_options ++ user_options ++ server_options
                  ++ wrapper_options) with
       | Some d => atoi (defGetString d)
       | None => -1
       end
  /\ is_reject_limit_rows opt
     = match last_named FDW_OPTION_REJECT_LIMIT_TYPE
               (table_options ++ user_options ++ server_options
                  ++ wrapper_options) with
       | Some d =>
           pg_strcasecmp FDW_OPTION_REJECT_LIMIT_ROWS (defGetString d) =? 0
       | None => true
       end
  /\ server opt = Some srv
  /\ exec_location opt = loc.
Proof.
  intros H. apply resolver_members in H as (st & -> & M & P).
  destruct (resolver_finish_members srv loc st)
    as (_ & _ & _ & Rl & Rt & Sv & Ex & Ho & Po & Pr & _).
  rewrite Ho, Po, Pr, Rl, Rt, Sv, Ex.
  pose proof (M F_pxf_host) as M1. pose proof (M F_pxf_port) as M2.
  pose proof (M F_pxf_protocol) as M3. pose proof (M F_reject_limit) as M4.
  pose proof (M F_reject_limit_type) as M5.
  cbn [member field_name assigned] in M1, M2, M3, M4, M5.
  destruct (last_named FDW_OPTION_PXF_HOST _) as [d1|]; injection M1 as ->.
  all: destruct (last_named FDW_OPTION_PXF_PROTOCOL _) as [d3|];
    injection M3 as ->.
  all: destruct (last_named FDW_OPTION_REJECT_LIMIT _) as [d4|];
    injection M4 as ->.
  all: destruct (last_named FDW_OPTION_REJECT_LIMIT_TYPE _) as [d5|];
    injection M5 as ->.
  all: destruct (last_named FDW_OPTION_PXF_PORT _) as [d2|];
    [ assert (R : 0 < pxf_port (r_opt st) < 65535) by (apply P; discriminate);
      destruct (Z.eqb_spec (pxf_port (r_opt st)) 0) as [Z0|Z0]; [lia|];
      injection M2 as ->
    | injection M2 as -> ].
  all: repeat split.
Qed.

(** X10.  The profile of a resolved configuration is the protocol of the
    last protocol option, followed by a colon and the format of the last
    format option when a format is given; with neither protocol nor format
    there is no profile. *)
Theorem profile_derivation table user server wrapper srv loc
    (opt : PxfOptions) :
  PxfGetOptions table user server wrapper srv loc = OK opt ->
  (forall dp,
     last_named FDW_OPTION_PROTOCOL (table ++ user ++ server ++ wrapper)
     = Some dp ->
     profile opt
     = Some match last_named FDW_OPTION_FORMAT
                    (table ++ user ++ server ++ wrapper) with
            | Some df => defGetString dp ++ ":" ++ defGetString df
            | None => defGetString dp
            end)
  /\ (last_named FDW_OPTION_PROTOCOL (table ++ user ++ server ++ wrapper)
      = None ->
      last_named FDW_OPTION_FORMAT (table ++ user ++ server ++ wrapper)
      = None ->
      profile opt = None).
Proof.
  intros H. apply resolver_members in H as (st & -> & M & _).
  destruct (resolver_finish_members srv loc st)
    as (_ & _ & _ & _ & _ & _ & _ & _ & _ & _ & _ & Pf).
  rewrite Pf.
  pose proof (M F_protocol) as M1. pose proof (M F_format) as M2.
  cbn [member field_name assigned] in M1, M2.
  split.
  - intros dp E. rewrite E in M1. injection M1 as ->.
    destruct (last_named FDW_OPTION_FORMAT _); injection M2 as ->; reflexivity.
  - intros E1 E2. rewrite E1 in M1. rewrite E2 in M2.
    injection M1 as ->. injection M2 as ->. reflexivity.
Qed.

(** X11.  The wire format of a resolved configuration is that of the last
    wire_format option; when there is none it is the text wire format as
    soon as a format option is given, whatever its value, and the writable
    wire format when no format is given either. *)
Theorem wire_format_derivation table user server wrapper srv loc
    (opt : PxfOptions) :
  PxfGetOptions table user server wrapper srv loc = OK opt ->
  wire_format opt
  = Some match last_named FDW_OPTION_WIRE_FORMAT
                 (table ++ user ++ server ++ wrapper) with
         | Some d => defGetString d
         | None =>
             match last_named FDW_OPTION_FORMAT
                     (table ++ user ++ server ++ wrapper) with
             | Some _ => TextFormatName
             | None => GpdbWritableFormatName
             end
         end.
Proof.
  intros H. apply resolver_members in H as (st & -> & M & _).
  destruct (resolver_finish_members srv loc st)
    as (_ & _ & _ & _ & _ & _ & _ & _ & _ & _ & Wf & _).
  rewrite Wf.
  pose proof (M F_wire_format) as M1. pose proof (M F_format) as M2.
  cbn [member field_name assigned] in M1, M2.
  destruct (last_named FDW_OPTION_WIRE_FORMAT _); injection M1 as ->;
    [reflexivity|].
  destruct (last_named FDW_OPTION_FORMAT _); injection M2 as ->;
    [now rewrite GetWireFormatName_non_null | reflexivity].
Qed.

(* ------------------------------------------------------------------------- *)
(** ** Resolving what was validated *)

Lemma fold_case_zero (ch : Z) : fold_case ch = 0 -> ch = 0.
Proof.
  unfold fold_case.
  destruct (Z.leb_spec 65 ch); destruct (Z.leb_spec ch 90); cbn [andb]; lia.
Qed.

(** Against a text without NUL byte, a comparison that yields 0 yields 0
    the other way round. *)
Lemma pg_strcasecmp_swap (c t : string) :
  no_nul c = true -> pg_strcasecmp t c = 0 -> pg_strcasecmp c t = 0.
Proof.
  revert t. induction c as [|a c IH]; intros t N H.
  - apply pg_strcasecmp_first in H. cbn [pg_strcasecmp].
    rewrite <- H, Z.eqb_refl. reflexivity.
  - cbn [no_nul] in N. apply andb_prop in N as [Na Nc].
    pose proof (pg_strcasecmp_first _ _ H) as F.
    destruct t as [|b t].
    + cbn [next_byte] in F. symmetry in F. apply fold_case_zero in F.
      rewrite F in Na. discriminate.
    + cbn [pg_strcasecmp next_byte advance] in H |- *.
      cbn [next_byte] in F. rewrite F, Z.eqb_refl in H. cbn [negb] in H.
      rewrite F, Z.eqb_refl. cbn [negb]. now apply IH.
Qed.

(** What a round of the validator's loop does to the reject limit and to
    its type. *)
Lemma validator_body_reject (catalog : Oid) (st st' : validator_vars)
    (def : DefElem) :
  validator_body catalog st def = OK st' ->
  v_reject_limit st'
  = (if streq (defname def) FDW_OPTION_REJECT_LIMIT
     then atoi (defGetString def) else v_reject_limit st)
  /\ v_reject_limit_type st'
     = (if streq (defname def) FDW_OPTION_REJECT_LIMIT_TYPE
        then defGetString def else v_reject_limit_type st).
Proof.
  unfold validator_body, atoi.
  destruct (ValidateOption (defname def) catalog) as [[]|]; cbn [bind];
    [|discriminate].
  destruct (streq (defname def) FDW_OPTION_PROTOCOL) eqn:E1;
    [by_name E1; intros [= <-]; now split|].
  destruct (streq (defname def) FDW_OPTION_RESOURCE) eqn:E2;
    [by_name E2; intros [= <-]; now split|].
  destruct (streq (defname def) FDW_OPTION_WIRE_FORMAT) eqn:E3.
  { by_name E3. destruct (_ && _); intros [= <-]. now split. }
  destruct (streq (defname def) FDW_OPTION_FORMAT) eqn:E4.
  { by_name E4. destruct (_ || _); intros [= <-]; now split. }
  destruct (streq (defname def) FDW_OPTION_REJECT_LIMIT) eqn:E5.
  { by_name E5. destruct (strtol _). destruct (_ || _); intros [= <-].
    now split. }
  destruct (streq (defname def) FDW_OPTION_REJECT_LIMIT_TYPE) eqn:E6.
  { destruct (_ && _); intros [= <-]. now split. }
  destruct (IsCopyOption (defname def)); intros [= <-]; now split.
Qed.

(** After the validator's loop, its variables hold the values of the last
    options of their names. *)
Lemma validator_loop_last (catalog : Oid) (l : list DefElem)
    (st st' : validator_vars) :
  foreach (validator_body catalog) l st = OK st' ->
  v_protocol st'
  = match last_named FDW_OPTION_PROTOCOL l with
    | Some d => Some (defGetString d)
    | None => v_protocol st
    end
  /\ v_resource st'
     = match last_named FDW_OPTION_RESOURCE l with
       | Some d => Some (defGetString d)
       | None => v_resource st
       end
  /\ v_reject_limit st'
     = match last_named FDW_OPTION_REJECT_LIMIT l with
       | Some d => atoi (defGetString d)
       | None => v_reject_limit st
       end
  /\ v_reject_limit_type st'
     = match last_named FDW_OPTION_REJECT_LIMIT_TYPE l with
       | Some d => defGetString d
       | None => v_reject_limit_type st
       end.
Proof.
  revert st. induction l as [|e l IH]; intros st; cbn [foreach bind].
  - intros [= <-]. now repeat split.
  - destruct (validator_body catalog st e) as [s1|err] eqn:B; cbn [bind];
      [|discriminate].
    intros L. destruct (IH s1 L) as (P & R & N & T).
    destruct (validator_body_protocol _ _ _ _ B) as [P1 R1].
    destruct (validator_body_reject _ _ _ _ B) as [N1 T1].
    rewrite !last_named_cons, P, R, N, T, P1, R1, N1, T1.
    repeat split;
      match goal with
      | |- context [last_named ?n l] => destruct (last_named n l)
      end; try reflexivity;
      match goal with
      | |- context [streq ?a ?b] => destruct (streq a b)
      end; reflexivity.
Qed.

(** What the acceptance of an option list says of the state its loop ends
    in, the check of the reject limit included. *)
Lemma pxf_fdw_validator_checks (l : list DefElem) (catalog : Oid) :
  pxf_fdw_validator l catalog = OK tt ->
  exists sf,
    foreach (validator_body catalog) l validator_init = OK sf
    /\ check_protocol catalog sf = OK tt
    /\ check_resource catalog sf = OK tt
    /\ check_reject_limit sf = OK tt.
Proof.
  unfold pxf_fdw_validator.
  destruct (foreach (validator_body catalog) l validator_init) as [sf|e];
    cbn [bind]; [|discriminate].
  destruct (check_protocol catalog sf) as [[]|e] eqn:P; cbn [bind];
    [|discriminate].
  destruct (check_resource catalog sf) as [[]|e] eqn:Q; cbn [bind];
    [|discriminate].
  destruct (check_reject_limit sf) as [[]|e] eqn:R; cbn [bind];
    [|discriminate].
  intros _. exists sf. now repeat split.
Qed.

(** An accepted list has no option that belongs to another catalog. *)
Lemma accepted_absent (l : list DefElem) (catalog : Oid)
    (entry : PxfFdwOption) :
  pxf_fdw_validator l catalog = OK tt ->
  In entry valid_options -> optcontext entry <> catalog ->
  named (optname entry) l = [].
Proof.
  intros Valid Ie Hc.
  destruct (named (optname entry) l) as [|d r] eqn:E; [reflexivity|].
  exfalso.
  assert (I : In d (named (optname entry) l)) by (rewrite E; now left).
  apply named_In in I as [I Hn].
  apply pxf_fdw_validator_OK in Valid as (sf & L & _).
  destruct (foreach_rounds _ _ _ _ L d I) as (s & s' & B).
  apply validator_body_OK in B as (V & _).
  apply Hc. apply (ValidateOption_from_OK _ _ _ V entry Ie). now symmetry.
Qed.

(** A list accepted for another catalog than the foreign table and the
    attribute has no row-format option. *)
Lemma accepted_no_row_format (l : list DefElem) (catalog : Oid) :
  pxf_fdw_validator l catalog = OK tt ->
  catalog <> ForeignTableRelationId -> catalog <> AttributeRelationId ->
  filter is_row_format_option l = [].
Proof.
  intros Valid N1 N2.
  destruct (filter is_row_format_option l) as [|d r] eqn:E; [reflexivity|].
  exfalso.
  assert (I : In d (filter is_row_format_option l)) by (rewrite E; now left).
  apply filter_In in I as [I R].
  assert (C : IsCopyOption (defname d) = true).
  { unfold is_row_format_option in R.
    destruct (streq (defname d) FDW_OPTION_FORMAT) eqn:F; [|exact R].
    apply streq_true in F. now rewrite F. }
  pose proof (validator_copy_option_legal _ _ _ Valid I C) as V.
  apply IsValidCopyOption_catalog in V as [V|V]; contradiction.
Qed.

(** Row-format options picked from a list of distinct names bear distinct
    names. *)
Lemma row_format_names_distinct (l : list DefElem) :
  NoDup (map defname l) ->
  NoDup (map defname (filter is_row_format_option l)).
Proof.
  induction l as [|e l IH]; cbn [map filter]; intros D; [constructor|].
  apply NoDup_cons_iff in D as [Fresh D].
  destruct (is_row_format_option e); cbn [map]; [|now apply IH].
  apply NoDup_cons; [|now apply IH].
  intros I. apply Fresh. apply in_map_iff in I as (y & E & I).
  apply filter_In in I as [I _]. rewrite <- E. now apply in_map.
Qed.

Lemma last_named_absent (name : string) (l : list DefElem) (catalog : Oid)
    (entry : PxfFdwOption) :
  pxf_fdw_validator l catalog = OK tt ->
  In entry valid_options -> optcontext entry <> catalog ->
  optname entry = name ->
  last_named name l = None.
Proof.
  intros Valid Ie Hc <-. apply last_named_None.
  now apply (accepted_absent l catalog entry).
Qed.

(** The resource, reject limit and reject limit type of the four validated
    lists are those of the foreign table. *)
Lemma validated_table_options table user server wrapper (name : string) :
  validated table user server wrapper ->
  In (mkOption name ForeignTableRelationId) valid_options ->
  last_named name (table ++ user ++ server ++ wrapper)
  = last_named name table.
Proof.
  intros (_ & Vu & Vs & Vw) Ie. rewrite !last_named_app.
  rewrite (last_named_absent name wrapper _ _ Vw Ie),
    (last_named_absent name server _ _ Vs Ie),
    (last_named_absent name user _ _ Vu Ie);
    try reflexivity; discriminate.
Qed.

(** X12.  A configuration resolved from four option lists that the
    validator has accepted, each for the catalog of its object, has a
    resource and a protocol, and neither is empty. *)
Theorem validated_resource_and_protocol table user server wrapper srv loc
    (opt : PxfOptions) :
  validated table user server wrapper ->
  PxfGetOptions table user server wrapper srv loc = OK opt ->
  exists r p,
    resource opt = Some r /\ r <> EmptyString
    /\ protocol opt = Some p /\ p <> EmptyString.
Proof.
  intros V H. pose proof V as (Vt & _ & _ & Vw).
  apply resolver_members in H as (st & -> & M & _).
  destruct (resolver_finish_members srv loc st) as (Pr & Re & _).
  rewrite Pr, Re.
  pose proof (M F_resource) as M1. pose proof (M F_protocol) as M2.
  cbn [member field_name assigned] in M1, M2.
  rewrite (validated_table_options _ _ _ _ FDW_OPTION_RESOURCE V)
    in M1; [|right; now left].
  apply pxf_fdw_validator_checks in Vt as (sf & L & _ & Q & _).
  destruct (validator_loop_last _ _ _ _ L) as (_ & R & _).
  unfold check_resource in Q. rewrite R in Q. cbn [N.eqb andb] in Q.
  apply pxf_fdw_validator_checks in Vw as (sw & Lw & P & _).
  destruct (validator_loop_last _ _ _ _ Lw) as (Pw & _).
  unfold check_protocol in P. rewrite Pw in P.
  rewrite !last_named_app in M2.
  destruct (last_named FDW_OPTION_RESOURCE table) as [dr|];
    [|discriminate Q].
  destruct (last_named FDW_OPTION_PROTOCOL wrapper) as [dp|];
    [|discriminate P].
  injection M1 as ->. injection M2 as ->.
  exists (defGetString dr), (defGetString dp).
  cbn [null_or_empty] in Q, P.
  repeat split; try reflexivity; apply streq_false.
  - now destruct (streq (defGetString dr) EmptyString).
  - now destruct (streq (defGetString dp) EmptyString).
Qed.

Lemma Flag_inj (a b : bool) : Flag a = Flag b -> a = b.
Proof. now intros [= ->]. Qed.

(** X13.  In a configuration resolved from four validated option lists the
    reject limit is unset (-1), or counted in rows and at least 2, or
    counted in percent and from 1 to 100. *)
Theorem validated_reject_limit table user server wrapper srv loc
    (opt : PxfOptions) :
  validated table user server wrapper ->
  PxfGetOptions table user server wrapper srv loc = OK opt ->
  reject_limit opt = -1
  \/ (is_reject_limit_rows opt = true /\ 2 <= reject_limit opt)
  \/ (is_reject_limit_rows opt = false /\ 1 <= reject_limit opt <= 100).
Proof.
  intros V H. pose proof V as (Vt & _).
  apply resolver_members in H as (st & -> & M & _).
  destruct (resolver_finish_members srv loc st)
    as (_ & _ & _ & Rl & Rt & _).
  rewrite Rl, Rt.
  pose proof (M F_reject_limit) as M1.
  pose proof (M F_reject_limit_type) as M2.
  cbn [member field_name assigned] in M1, M2.
  rewrite (validated_table_options _ _ _ _ FDW_OPTION_REJECT_LIMIT V)
    in M1; [|do 4 right; now left].
  rewrite (validated_table_options _ _ _ _ FDW_OPTION_REJECT_LIMIT_TYPE V)
    in M2; [|do 5 right; now left].
  pose proof (accepted_round table ForeignTableRelationId Vt) as Rounds.
  apply pxf_fdw_validator_checks in Vt as (sf & L & _ & _ & C).
  destruct (validator_loop_last _ _ _ _ L) as (_ & _ & N & T).
  unfold check_reject_limit in C. rewrite N, T in C.
  destruct (last_named FDW_OPTION_REJECT_LIMIT table) as [dn|];
    injection M1 as ->; [|now left].
  cbn [v_reject_limit v_reject_limit_type validator_init] in C.
  destruct (Z.eqb_spec (atoi (defGetString dn)) (-1)) as [E|E]; [now left|].
  cbn [negb] in C. right.
  destruct (last_named FDW_OPTION_REJECT_LIMIT_TYPE table) as [dt|] eqn:Lt;
    apply Flag_inj in M2; rewrite M2.
  - destruct (Z.eqb_spec (pg_strcasecmp (defGetString dt)
                            FDW_OPTION_REJECT_LIMIT_ROWS) 0) as [R|R].
    + left. rewrite (pg_strcasecmp_swap FDW_OPTION_REJECT_LIMIT_ROWS _ eq_refl R).
      destruct (Z.ltb_spec (atoi (defGetString dn)) 2); [discriminate C|].
      now split.
    + right.
      apply last_named_In in Lt as [It Ht].
      destruct (Rounds dt It) as (s & s' & B).
      apply validator_body_OK in B as (_ & _ & _ & Ty).
      destruct (Ty Ht) as [R'|P]; [contradiction|].
      split.
      * apply Z.eqb_neq. intros Z0.
        apply pg_strcasecmp_first in Z0. apply pg_strcasecmp_first in P.
        rewrite <- Z0 in P. vm_compute in P. discriminate.
      * destruct (Z.ltb_spec (atoi (defGetString dn)) 1);
          destruct (Z.ltb_spec 100 (atoi (defGetString dn)));
          cbn [orb] in C; try discriminate C; lia.
  - left. change (pg_strcasecmp FDW_OPTION_REJECT_LIMIT_ROWS
                    FDW_OPTION_REJECT_LIMIT_ROWS =? 0) with true in C.
    cbv iota in C.
    destruct (Z.ltb_spec (atoi (defGetString dn)) 2); [discriminate C|].
    now split.
Qed.

(** X14.  The COPY options of a configuration resolved from four validated
    option lists are the row-format options of the foreign table, in their
    order; when the options of the foreign table bear distinct names, so
    do the COPY options. *)
Theorem validated_copy_options table user server wrapper srv loc
    (opt : PxfOptions) :
  validated table user server wrapper ->
  PxfGetOptions table user server wrapper srv loc = OK opt ->
  copy_options opt = filter is_row_format_option table
  /\ (NoDup (map defname table) -> NoDup (map defname (copy_options opt))).
Proof.
  intros (_ & Vu & Vs & Vw) H.
  apply PxfGetOptions_OK in H as (st & L & ->).
  rewrite resolver_finish_copy_options.
  rewrite (resolver_loop_copy_options _ _ _ L). cbn [r_copy_options app].
  rewrite !filter_app.
  rewrite (accepted_no_row_format _ _ Vu), (accepted_no_row_format _ _ Vs),
    (accepted_no_row_format _ _ Vw); try discriminate.
  rewrite !app_nil_r. split; [reflexivity | apply row_format_names_distinct].
Qed.

(** X15.  The wire format of a configuration resolved from four validated
    option lists is one of the two wire format names. *)
Theorem validated_wire_format table user server wrapper srv loc
    (opt : PxfOptions) :
  validated table user server wrapper ->
  PxfGetOptions table user server wrapper srv loc = OK opt ->
  wire_format opt = Some TextFormatName
  \/ wire_format opt = Some GpdbWritableFormatName.
Proof.
  intros (Vt & Vu & Vs & Vw) H.
  apply resolver_members in H as (st & -> & M & _).
  destruct (resolver_finish_members srv loc st)
    as (_ & _ & _ & _ & _ & _ & _ & _ & _ & _ & Wf & _).
  rewrite Wf.
  pose proof (M F_wire_format) as M1. pose proof (M F_format) as M2.
  cbn [member field_name assigned] in M1, M2.
  destruct (last_named FDW_OPTION_WIRE_FORMAT _) as [d|] eqn:Lw;
    injection M1 as ->.
  - apply last_named_In in Lw as [I Hn].
    assert (Vals : exists l c, pxf_fdw_validator l c = OK tt /\ In d l).
    { apply in_app_or in I as [I|I]; [now exists table, ForeignTableRelationId|].
      apply in_app_or in I as [I|I]; [now exists user, UserMappingRelationId|].
      apply in_app_or in I as [I|I];
        [now exists server, ForeignServerRelationId
        |now exists wrapper, ForeignDataWrapperRelationId]. }
    destruct Vals as (l & c & Vl & Il).
    destruct (accepted_round l c Vl d Il) as (s & s' & B).
    apply validator_body_OK in B as (_ & W & _).
    destruct (W Hn) as [-> | ->]; auto.
  - destruct (last_named FDW_OPTION_FORMAT _); injection M2 as ->;
      [left; now rewrite GetWireFormatName_non_null | now right].
Qed.

(* ------------------------------------------------------------------------- *)
(** ** The reject limit as the validator reads it *)

Lemma leading_integer_format_d (n : Z) (rest : string) :
  0 < n <= LONG_MAX ->
  starts_with_digit rest = false ->
  leading_integer (format_d n ++ rest) = Some n.
Proof.
  intros Hn Hr. unfold leading_integer.
  destruct (strtol_format_d n rest Hn Hr) as [k ->]. reflexivity.
Qed.

Lemma leading_integer_no_number (s : string) :
  no_number s = true -> leading_integer s = None.
Proof.
  destruct s as [|c r]; [reflexivity|].
  destruct c as [[] [] [] [] [] [] [] []]; try discriminate; intros _;
    reflexivity.
Qed.

(** A round of the loop on another option than the reject limit leaves the
    reject limit as it is, and does not look at it. *)
Lemma validator_body_keeps_limit (catalog : Oid) (st : validator_vars)
    (e : DefElem) (v : Z) :
  streq (defname e) FDW_OPTION_REJECT_LIMIT = false ->
  validator_body catalog (with_reject_limit v st) e
  = match validator_body catalog st e with
    | OK s1 => OK (with_reject_limit v s1)
    | ERROR err => ERROR err
    end.
Proof.
  intros H. destruct st as [p r t c n]. unfold validator_body. rewrite H.
  destruct (ValidateOption (defname e) catalog) as [[]|]; cbn [bind];
    [|reflexivity].
  destruct (streq (defname e) FDW_OPTION_PROTOCOL); [reflexivity|].
  destruct (streq (defname e) FDW_OPTION_RESOURCE); [reflexivity|].
  destruct (streq (defname e) FDW_OPTION_WIRE_FORMAT);
    [destruct (_ && _); reflexivity|].
  destruct (streq (defname e) FDW_OPTION_FORMAT);
    [destruct (_ || _); reflexivity|].
  destruct (streq (defname e) FDW_OPTION_REJECT_LIMIT_TYPE);
    [destruct (_ && _); reflexivity|].
  destruct (IsCopyOption (defname e)); reflexivity.
Qed.

(** The loop over a list that gives one text for the reject limit, against
    the loop over the list without the reject limit: the first stops at the
    reject limit when its text has no leading integer or one that is below 1
    as an [int], and otherwise ends as the second does, with that [int] for
    reject limit. *)
Lemma validator_loop_without_limit (value : string) (l : list DefElem) :
  (forall d, In d l -> defname d = FDW_OPTION_REJECT_LIMIT -> arg d = value) ->
  forall st sf v,
    foreach (validator_body ForeignTableRelationId) (without_limit l) st
    = OK sf ->
    foreach (validator_body ForeignTableRelationId) l (with_reject_limit v st)
    = match named FDW_OPTION_REJECT_LIMIT l with
      | [] => OK (with_reject_limit v sf)
      | _ :: _ =>
          match leading_integer value with
          | None => ERROR (invalid_reject_limit value)
          | Some n =>
              if int_of_long n <? 1
              then ERROR (invalid_reject_limit value)
              else OK (with_reject_limit (int_of_long n) sf)
          end
      end.
Proof.
  induction l as [|e l IH]; intros Hv st sf v L.
  - cbn in L. injection L as <-. reflexivity.
  - assert (Hv' : forall d, In d l -> defname d = FDW_OPTION_REJECT_LIMIT ->
                            arg d = value) by (intros d I; apply Hv; now right).
    unfold without_limit in L. cbn [filter] in L. fold (without_limit l) in L.
    rewrite named_cons. cbn [foreach].
    destruct (streq (defname e) FDW_OPTION_REJECT_LIMIT) eqn:E.
    + cbn [negb] in L. apply streq_true in E.
      rewrite (validator_body_reject_limit _ e E).
      unfold defGetString. rewrite (Hv e (or_introl eq_refl) E).
      unfold leading_integer.
      destruct (strtol value) as [n k] eqn:S.
      destruct (k =? 0)%nat eqn:K; cbn [orb]; [reflexivity|].
      destruct (int_of_long n <? 1) eqn:Lt; [reflexivity|].
      cbn [bind].
      transitivity (foreach (validator_body ForeignTableRelationId) l
                      (with_reject_limit (int_of_long n) st));
        [reflexivity|].
      rewrite (IH Hv' st sf (int_of_long n) L).
      unfold leading_integer. rewrite S, K, Lt.
      now destruct (named FDW_OPTION_REJECT_LIMIT l).
    + cbn [negb foreach] in L.
      destruct (validator_body ForeignTableRelationId st e) as [s1|err] eqn:B;
        cbn [bind] in L; [|discriminate].
      rewrite (validator_body_keeps_limit _ _ _ _ E), B. cbn [bind].
      now apply IH.
Qed.

(** The verdict on a list of the foreign table whose other options are
    valid, from the text of its reject limit and the type in force. *)
Lemma pxf_fdw_validator_leading_integer (l : list DefElem) (value : string) :
  pxf_fdw_validator (without_limit l) ForeignTableRelationId = OK tt ->
  named FDW_OPTION_REJECT_LIMIT l = [makeDefElem FDW_OPTION_REJECT_LIMIT value] ->
  pxf_fdw_validator l ForeignTableRelationId
  = match leading_integer value with
    | None => ERROR (invalid_reject_limit value)
    | Some n =>
        if int_of_long n <? 1
        then ERROR (invalid_reject_limit value)
        else check_reject_limit
               (mkValidatorVars None None (reject_limit_type_of l) []
                  (int_of_long n))
    end.
Proof.
  intros Valid Nn.
  apply pxf_fdw_validator_OK in Valid as (sf & L & P & Q & C).
  pose proof (validator_loop_without_limit value l (named_singleton _ _ _ Nn)
                validator_init sf (-1) L) as R.
  rewrite Nn in R.
  change (with_reject_limit (-1) validator_init) with validator_init in R.
  unfold pxf_fdw_validator. rewrite R.
  destruct (leading_integer value) as [n|] eqn:Li; [|reflexivity].
  destruct (int_of_long n <? 1) eqn:Lt; [reflexivity|].
  destruct (validator_loop_last _ _ _ _ R) as (_ & _ & _ & T).
  cbn [bind].
  unfold check_protocol, check_resource in P, Q |- *.
  cbn [with_reject_limit v_protocol v_resource v_copy_options] in *.
  rewrite P, Q. cbn [bind].
  unfold check_reject_limit, reject_limit_type_of.
  cbn [with_reject_limit v_reject_limit v_reject_limit_type validator_init]
    in T |- *.
  rewrite T, C.
  repeat match goal with
         | |- context [if ?c then _ else _] => destruct c
         end; reflexivity.
Qed.

(** C10.  At the foreign table, the other options being valid, the
    validator refuses a reject limit, as an invalid string format, when its
    text has no leading integer, when its leading integer is below 1, and
    when its leading integer is below 2 with the type rows (the type when
    none is given) or above 100 with the type percent; it accepts every
    other leading integer from 1 to [INT_MAX], whatever follows it in the
    text.  So the decimal writing of a number from 1 to [INT_MAX], followed
    by a text that does not go on with a digit, is judged as that number,
    which is the one the refusal prints; and a text that is empty or begins
    with neither white space, a sign nor a digit is refused. *)
Theorem reject_limit_leading_integer (options_list : list DefElem)
    (value : string) :
  pxf_fdw_validator (without_limit options_list) ForeignTableRelationId
  = OK tt ->
  named FDW_OPTION_REJECT_LIMIT options_list
  = [makeDefElem FDW_OPTION_REJECT_LIMIT value] ->
  (leading_integer value = None ->
   pxf_fdw_validator options_list ForeignTableRelationId
   = ERROR (invalid_reject_limit value))
  /\ (forall n,
        leading_integer value = Some n -> INT_MIN <= n < 1 ->
        pxf_fdw_validator options_list ForeignTableRelationId
        = ERROR (invalid_reject_limit value))
  /\ (forall n,
        leading_integer value = Some n -> 1 <= n <= INT_MAX ->
        pxf_fdw_validator options_list ForeignTableRelationId
        = if pg_strcasecmp (reject_limit_type_of options_list)
               FDW_OPTION_REJECT_LIMIT_ROWS =? 0
          then if n <? 2 then ERROR (invalid_rows_reject_limit n) else OK tt
          else if 100 <? n then ERROR (invalid_percent_reject_limit n)
               else OK tt)
  /\ (no_number value = true ->
      pxf_fdw_validator options_list ForeignTableRelationId
      = ERROR (invalid_reject_limit value))
  /\ (forall n rest,
        value = format_d n ++ rest -> 1 <= n <= INT_MAX ->
        starts_with_digit rest = false ->
        pxf_fdw_validator options_list ForeignTableRelationId
        = if pg_strcasecmp (reject_limit_type_of options_list)
               FDW_OPTION_REJECT_LIMIT_ROWS =? 0
          then if n <? 2 then ERROR (invalid_rows_reject_limit n) else OK tt
          else if 100 <? n then ERROR (invalid_percent_reject_limit n)
               else OK tt).
Proof.
  intros Valid Nn.
  pose proof (pxf_fdw_validator_leading_integer _ _ Valid Nn) as V.
  assert (In_range : forall n,
            leading_integer value = Some n -> 1 <= n <= INT_MAX ->
            pxf_fdw_validator options_list ForeignTableRelationId
            = if pg_strcasecmp (reject_limit_type_of options_list)
                   FDW_OPTION_REJECT_LIMIT_ROWS =? 0
              then if n <? 2 then ERROR (invalid_rows_reject_limit n)
                   else OK tt
              else if 100 <? n then ERROR (invalid_percent_reject_limit n)
                   else OK tt).
  { intros n Li Hn. rewrite V, Li.
    rewrite int_of_long_small by (unfold INT_MAX in *; lia).
    destruct (Z.ltb_spec n 1) as [Lo|_]; [lia|].
    unfold check_reject_limit. cbn [v_reject_limit v_reject_limit_type].
    destruct (Z.eqb_spec n (-1)) as [M|_]; [lia|]. cbn [negb orb].
    destruct (Z.ltb_spec n 1) as [Lo|_]; [lia|]. reflexivity. }
  split; [|split; [|split; [|split]]].
  - intros Li. now rewrite V, Li.
  - intros n Li Hn. rewrite V, Li.
    rewrite int_of_long_small by (unfold INT_MIN, INT_MAX in *; lia).
    destruct (Z.ltb_spec n 1) as [_|Hi]; [reflexivity|lia].
  - exact In_range.
  - intros Nx. now rewrite V, (leading_integer_no_number _ Nx).
  - intros n rest -> Hn Hr. apply In_range; [|exact Hn].
    apply leading_integer_format_d; [|exact Hr].
    unfold INT_MAX, LONG_MAX in *. lia.
Qed.

End PxfOption.

(* ------------------------------------------------------------------------- *)
(** ** Examples, in the environment [Env] *)

Local Notation "'resolve'" :=
  (PxfGetOptions Env.TextFormatName Env.GpdbWritableFormatName
     Env.PXF_FDW_DEFAULT_HOST Env.PXF_FDW_DEFAULT_PORT
     Env.PXF_FDW_DEFAULT_PROTOCOL).

Local Notation "'validate'" :=
  (pxf_fdw_validator Env.TextFormatName Env.GpdbWritableFormatName
     Env.RelationGetRelationName Env.defGetBoolean Env.ProcessCopyOptions).

Local Notation "'validate_round'" :=
  (validator_body Env.TextFormatName Env.GpdbWritableFormatName
     Env.RelationGetRelationName).

Local Notation "'validate_copy'" :=
  (ValidateCopyOptions Env.defGetBoolean Env.ProcessCopyOptions).

(** C2 as stated fails: a delimiter at the foreign table and another at the
    wrapper are both among the COPY options of the result. *)
Lemma copy_options_keep_duplicates :
  exists opt,
    resolve [makeDefElem "delimiter" ","] [] []
            [makeDefElem "delimiter" "|"] "srv" zero = OK opt
    /\ copy_options opt
       = [makeDefElem "delimiter" ","; makeDefElem "delimiter" "|"]
    /\ ~ NoDup (map defname (copy_options opt)).
Proof.
  eexists. split; [reflexivity|]. split; [reflexivity|].
  cbn. intros H. inversion H as [|x l Hin _]. apply Hin. now left.
Qed.

Lemma copy_options_all_occurrences_witness :
  exists opt,
    resolve [makeDefElem "format" "CSV"; makeDefElem "header" "true"] []
            [makeDefElem "pxf_port" "5888"]
            [makeDefElem "protocol" "s3"] "srv" zero = OK opt
    /\ copy_options opt
       = [makeDefElem "format" "CSV"; makeDefElem "header" "true"].
Proof.
  eexists. split; [reflexivity|].
  apply (copy_options_all_occurrences Env.TextFormatName
           Env.GpdbWritableFormatName Env.PXF_FDW_DEFAULT_HOST
           Env.PXF_FDW_DEFAULT_PORT Env.PXF_FDW_DEFAULT_PROTOCOL
           [makeDefElem "format" "CSV"; makeDefElem "header" "true"] []
           [makeDefElem "pxf_port" "5888"]
           [makeDefElem "protocol" "s3"] "srv" zero).
  reflexivity.
Defined.

Lemma generic_option_precedence_witness :
  exists opt,
    resolve [makeDefElem "accesskey" "table"] [] []
            [makeDefElem "accesskey" "wrapper"] "srv" zero = OK opt
    /\ named "accesskey" (options opt) = [makeDefElem "accesskey" "table"].
Proof.
  eexists. split; [reflexivity|].
  apply (generic_option_precedence Env.TextFormatName
           Env.GpdbWritableFormatName Env.PXF_FDW_DEFAULT_HOST
           Env.PXF_FDW_DEFAULT_PORT Env.PXF_FDW_DEFAULT_PROTOCOL
           [makeDefElem "accesskey" "table"] [] []
           [makeDefElem "accesskey" "wrapper"] "srv" zero
           "accesskey" "table" "wrapper").
  - reflexivity.
  - reflexivity.
  - now left.
  - intros d [<-|[]] _. reflexivity.
  - now left.
  - discriminate.
  - reflexivity.
Defined.

Lemma named_field_last_occurrence_witness :
  exists opt,
    resolve [makeDefElem "protocol" "hdfs"] [] []
            [makeDefElem "protocol" "s3"] "srv" zero = OK opt
    /\ member F_protocol opt = Text (Some "s3").
Proof.
  eexists. split; [reflexivity|].
  apply (named_field_last_occurrence Env.TextFormatName
           Env.GpdbWritableFormatName Env.PXF_FDW_DEFAULT_HOST
           Env.PXF_FDW_DEFAULT_PORT Env.PXF_FDW_DEFAULT_PROTOCOL
           [makeDefElem "protocol" "hdfs"] [] []
           [makeDefElem "protocol" "s3"] "srv" zero
           F_protocol [makeDefElem "protocol" "hdfs"] []
           (makeDefElem "protocol" "s3")).
  - reflexivity.
  - reflexivity.
  - intros e [].
  - reflexivity.
Defined.

Lemma reject_limit_boundary_witness :
  validate
    (without_reject_limit
       [makeDefElem "resource" "/data"; makeDefElem "reject_limit" "2";
        makeDefElem "reject_limit_type" "rows"])
    ForeignTableRelationId = OK tt
  /\ validate
       [makeDefElem "resource" "/data"; makeDefElem "reject_limit" "2";
        makeDefElem "reject_limit_type" "rows"]
       ForeignTableRelationId = OK tt.
Proof.
  split; [reflexivity|].
  refine (proj1 (proj2
            (reject_limit_boundary Env.TextFormatName
               Env.GpdbWritableFormatName Env.RelationGetRelationName
               Env.defGetBoolean Env.ProcessCopyOptions
               [makeDefElem "resource" "/data"; makeDefElem "reject_limit" "2";
                makeDefElem "reject_limit_type" "rows"] _)) _ _);
    reflexivity.
Defined.

(** C6 as stated fails: at the wrapper, a list without protocol that gives a
    resource is refused for the catalog level of the resource, and at the
    foreign table a list without resource that gives a reject limit of 0 is
    refused for the reject limit. *)
Lemma required_option_not_reached :
  named FDW_OPTION_PROTOCOL [makeDefElem "resource" "/data"] = []
  /\ validate [makeDefElem "resource" "/data"] ForeignDataWrapperRelationId
     = ERROR (ereport ERRCODE_FDW_INVALID_OPTION_NAME
                "the resource option can only be defined at the pg_foreign_table level"
                None)
  /\ named FDW_OPTION_RESOURCE [makeDefElem "reject_limit" "0"] = []
  /\ validate [makeDefElem "reject_limit" "0"] ForeignTableRelationId
     = ERROR (ereport ERRCODE_FDW_INVALID_STRING_FORMAT
                "invalid reject_limit value '0', should be a positive integer"
                None).
Proof. repeat split. Qed.

Lemma required_options_witness :
  foreach (validate_round ForeignDataWrapperRelationId)
    [makeDefElem "mode" "batch"] validator_init
  = OK validator_init
  /\ validate [makeDefElem "mode" "batch"] ForeignDataWrapperRelationId
     = ERROR protocol_needed.
Proof.
  split; [reflexivity|].
  apply (required_options Env.TextFormatName Env.GpdbWritableFormatName
           Env.RelationGetRelationName Env.defGetBoolean
           Env.ProcessCopyOptions [makeDefElem "mode" "batch"]
           ForeignDataWrapperRelationId validator_init).
  - reflexivity.
  - reflexivity.
  - intros d [<-|[]]. discriminate.
Defined.

(** C8 as stated fails: the hint on an option refused at the foreign table
    lists the legal names in the order of the table, format first, which is
    not the sorted order. *)
Lemma hint_not_sorted :
  exists e,
    validate_copy [makeDefElem "force_not_null" "true"] ForeignTableRelationId
    = ERROR e
    /\ hint e
       = Some "Valid options in this context are: format, header, delimiter, quote, escape, null, encoding, newline, fill_missing_fields"
    /\ sort_names (legal_copy_names ForeignTableRelationId)
       = [ "delimiter"; "encoding"; "escape"; "fill_missing_fields"; "format";
           "header"; "newline"; "null"; "quote" ]
    /\ hint e
       <> Some (hint_for (sort_names (legal_copy_names ForeignTableRelationId))).
Proof. eexists. repeat split. discriminate. Qed.

Lemma invalid_copy_option_reported_witness :
  validate_copy [makeDefElem "header" "true"; makeDefElem "force_null" "on"]
    ForeignTableRelationId
  = ERROR (ereport ERRCODE_FDW_INVALID_OPTION_NAME
             ("invalid option " ++ quoted "force_null")
             (Some "Valid options in this context are: format, header, delimiter, quote, escape, null, encoding, newline, fill_missing_fields")).
Proof.
  apply (invalid_copy_option_reported Env.defGetBoolean Env.ProcessCopyOptions
           _ [makeDefElem "header" "true"] [] (makeDefElem "force_null" "on")
           ForeignTableRelationId
           (mkCopyVars None None [makeDefElem "header" "true"]));
    reflexivity.
Defined.

(** C10 as stated fails: a positive integer followed by other characters is
    not always accepted.  With no type given, which means rows, the reject
    limit 1abc has the leading integer 1 and is refused, as an invalid
    string format, by the check that asks for 2 or more; with the type
    percent, 101abc is refused by the check that asks for 100 at most. *)
Lemma reject_limit_within_type :
  leading_integer "1abc" = Some 1
  /\ validate [makeDefElem "resource" "/data";
               makeDefElem "reject_limit" "1abc"] ForeignTableRelationId
     = ERROR (ereport ERRCODE_FDW_INVALID_STRING_FORMAT
         "invalid (ROWS) reject_limit value '1', valid values are 2 or larger"
         None)
  /\ leading_integer "101abc" = Some 101
  /\ validate [makeDefElem "resource" "/data";
               makeDefElem "reject_limit" "101abc";
               makeDefElem "reject_limit_type" "percent"]
       ForeignTableRelationId
     = ERROR (ereport ERRCODE_FDW_INVALID_STRING_FORMAT
         "invalid (PERCENT) reject_limit value '101', valid values are 1 to 100"
         None).
Proof. repeat split. Qed.

Lemma reject_limit_leading_integer_witness :
  validate
    (without_limit
       [makeDefElem "resource" "/data"; makeDefElem "reject_limit" "5abc";
        makeDefElem "reject_limit_type" "Percent"])
    ForeignTableRelationId = OK tt
  /\ validate
       [makeDefElem "resource" "/data"; makeDefElem "reject_limit" "5abc";
        makeDefElem "reject_limit_type" "Percent"]
       ForeignTableRelationId = OK tt.
Proof.
  split; [reflexivity|].
  refine (proj2 (proj2 (proj2 (proj2
            (reject_limit_leading_integer Env.TextFormatName
               Env.GpdbWritableFormatName Env.RelationGetRelationName
               Env.defGetBoolean Env.ProcessCopyOptions
               [makeDefElem "resource" "/data";
                makeDefElem "reject_limit" "5abc";
                makeDefElem "reject_limit_type" "Percent"] "5abc" _ _))))
            5 "abc" _ _ _);
    try reflexivity.
  vm_compute. split; discriminate.
Defined.

(** Beyond the range of an [int] the number that the validator checks is
    not the leading integer: of 4294967297 it keeps 1, which it refuses for
    the type rows, and of 4294967298 it keeps 2, which it accepts. *)
Lemma reject_limit_beyond_int :
  leading_integer "4294967297" = Some 4294967297
  /\ validate [makeDefElem "resource" "/data";
               makeDefElem "reject_limit" "4294967297"] ForeignTableRelationId
     = ERROR (ereport ERRCODE_FDW_INVALID_STRING_FORMAT
         "invalid (ROWS) reject_limit value '1', valid values are 2 or larger"
         None)
  /\ leading_integer "4294967298" = Some 4294967298
  /\ validate [makeDefElem "resource" "/data";
               makeDefElem "reject_limit" "4294967298"] ForeignTableRelationId
     = OK tt
  /\ atoi "4294967298" = 2.
Proof. repeat split. Qed.

(* ------------------------------------------------------------------------- *)
(** ** Further examples, in the environment [Env] *)

Local Notation "'validated_in_env'" :=
  (validated Env.TextFormatName Env.GpdbWritableFormatName
     Env.RelationGetRelationName Env.defGetBoolean Env.ProcessCopyOptions).

(** The option lists of a foreign table, its user mapping, its server and
    the wrapper. *)
Local Notation "'sales_table'" :=
  [ makeDefElem "resource" "/data/sales"; makeDefElem "format" "CSV";
    makeDefElem "header" "true"; makeDefElem "reject_limit" "5";
    makeDefElem "reject_limit_type" "Rows"; makeDefElem "accesskey" "k1" ].

Local Notation "'sales_user'" := [ makeDefElem "accesskey" "k2" ].

Local Notation "'sales_server'" :=
  [ makeDefElem "pxf_host" "pxf.example"; makeDefElem "pxf_port" "5888" ].

Local Notation "'sales_wrapper'" :=
  [ makeDefElem "protocol" "s3"; makeDefElem "accesskey" "k3" ].

Lemma accepted_options_at_their_level_witness :
  validate sales_table ForeignTableRelationId = OK tt
  /\ optcontext (mkOption FDW_OPTION_REJECT_LIMIT ForeignTableRelationId)
     = ForeignTableRelationId.
Proof.
  split; [vm_compute; reflexivity|].
  apply (accepted_options_at_their_level Env.TextFormatName
           Env.GpdbWritableFormatName Env.RelationGetRelationName
           Env.defGetBoolean Env.ProcessCopyOptions sales_table
           ForeignTableRelationId eq_refl (makeDefElem "reject_limit" "5")).
  - do 3 right. now left.
  - do 4 right. now left.
  - reflexivity.
Defined.

Lemma accepted_option_values_witness :
  validate sales_table ForeignTableRelationId = OK tt
  /\ snd (strtol "5") <> 0%nat /\ 1 <= atoi "5".
Proof.
  split; [vm_compute; reflexivity|].
  refine (proj1 (proj2
            (accepted_option_values Env.TextFormatName
               Env.GpdbWritableFormatName Env.RelationGetRelationName
               Env.defGetBoolean Env.ProcessCopyOptions sales_table
               ForeignTableRelationId eq_refl
               (makeDefElem "reject_limit" "5") _)) eq_refl).
  do 3 right. now left.
Defined.

Lemma accepted_copy_options_legal_witness :
  validate sales_table ForeignTableRelationId = OK tt
  /\ IsValidCopyOption "header" ForeignTableRelationId = true
  /\ (ForeignTableRelationId = ForeignTableRelationId
      \/ ForeignTableRelationId = AttributeRelationId).
Proof.
  split; [vm_compute; reflexivity|].
  apply (accepted_copy_options_legal Env.TextFormatName
           Env.GpdbWritableFormatName Env.RelationGetRelationName
           Env.defGetBoolean Env.ProcessCopyOptions sales_table
           ForeignTableRelationId eq_refl (makeDefElem "header" "true")).
  - do 2 right. now left.
  - reflexivity.
Defined.

Lemma unknown_option_ignored_witness :
  validate ([makeDefElem "resource" "/data/sales"]
            ++ makeDefElem "accesskey" "k1" :: [makeDefElem "header" "true"])
    ForeignTableRelationId
  = validate ([makeDefElem "resource" "/data/sales"]
              ++ [makeDefElem "header" "true"])
      ForeignTableRelationId.
Proof.
  apply (unknown_option_ignored Env.TextFormatName Env.GpdbWritableFormatName
           Env.RelationGetRelationName Env.defGetBoolean
           Env.ProcessCopyOptions).
  - intros entry I. unfold valid_options in I. cbn [In] in I.
    repeat (destruct I as [<-|I]; [discriminate|]). destruct I.
  - reflexivity.
Defined.

Lemma force_option_given_twice_witness :
  validate_copy
    ([makeDefElem "force_not_null" "true"]
     ++ makeDefElem "force_not_null" "false" :: [])
    AttributeRelationId
  = ERROR (ereport ERRCODE_SYNTAX_ERROR "conflicting or redundant options"
             (Some ("option " ++ quoted "force_not_null"
                    ++ " supplied more than once for a column"))).
Proof.
  apply (force_option_given_twice Env.defGetBoolean Env.ProcessCopyOptions
           [makeDefElem "force_not_null" "true"] []
           (makeDefElem "force_not_null" "false") AttributeRelationId
           (mkCopyVars (Some (makeDefElem "force_not_null" "true")) None [])).
  - reflexivity.
  - now left.
  - exists (makeDefElem "force_not_null" "true"). split; [now left|reflexivity].
Defined.

Lemma copy_options_handed_over_witness :
  validate_copy [makeDefElem "header" "true"; makeDefElem "delimiter" ","]
    ForeignTableRelationId
  = Env.ProcessCopyOptions
      [makeDefElem "header" "true"; makeDefElem "delimiter" ","].
Proof.
  apply (copy_options_handed_over Env.defGetBoolean Env.ProcessCopyOptions
           [makeDefElem "header" "true"; makeDefElem "delimiter" ","]
           ForeignTableRelationId).
  - intros d [<-|[<-|[]]]; reflexivity.
  - intros d [<-|[<-|[]]]; discriminate.
  - cbn. lia.
  - cbn. lia.
Defined.

Lemma pass_through_options_distinct_witness :
  exists opt,
    resolve sales_table sales_user sales_server sales_wrapper "srv" zero
    = OK opt
    /\ NoDup (map defname (options opt)).
Proof.
  eexists. split; [vm_compute; reflexivity|].
  apply (pass_through_options_distinct Env.TextFormatName
           Env.GpdbWritableFormatName Env.PXF_FDW_DEFAULT_HOST
           Env.PXF_FDW_DEFAULT_PORT Env.PXF_FDW_DEFAULT_PROTOCOL
           sales_table sales_user sales_server sales_wrapper "srv" zero).
  reflexivity.
Defined.

Lemma pass_through_first_occurrence_witness :
  exists opt,
    resolve sales_table sales_user sales_server sales_wrapper "srv" zero
    = OK opt
    /\ named "accesskey" (options opt) = [makeDefElem "accesskey" "k1"].
Proof.
  eexists. split; [vm_compute; reflexivity|].
  apply (pass_through_first_occurrence Env.TextFormatName
           Env.GpdbWritableFormatName Env.PXF_FDW_DEFAULT_HOST
           Env.PXF_FDW_DEFAULT_PORT Env.PXF_FDW_DEFAULT_PROTOCOL
           sales_table sales_user sales_server sales_wrapper "srv" zero
           [ makeDefElem "resource" "/data/sales"; makeDefElem "format" "CSV";
             makeDefElem "header" "true"; makeDefElem "reject_limit" "5";
             makeDefElem "reject_limit_type" "Rows" ]
           (sales_user ++ sales_server ++ sales_wrapper)
           (makeDefElem "accesskey" "k1")).
  - reflexivity.
  - intros e I. cbn [In] in I.
    repeat (destruct I as [<-|I]; [discriminate|]). destruct I.
  - reflexivity.
  - reflexivity.
  - reflexivity.
Defined.

Lemma members_or_defaults_witness :
  exists opt,
    resolve sales_table sales_user sales_server sales_wrapper "srv" zero
    = OK opt
    /\ pxf_host opt = Some "pxf.example".
Proof.
  eexists. split; [vm_compute; reflexivity|].
  refine (proj1 (members_or_defaults Env.TextFormatName
                   Env.GpdbWritableFormatName Env.PXF_FDW_DEFAULT_HOST
                   Env.PXF_FDW_DEFAULT_PORT Env.PXF_FDW_DEFAULT_PROTOCOL
                   sales_table sales_user sales_server sales_wrapper
                   "srv" zero _ _)).
  reflexivity.
Defined.

Lemma profile_derivation_witness :
  exists opt,
    resolve sales_table sales_user sales_server sales_wrapper "srv" zero
    = OK opt
    /\ profile opt = Some "s3:CSV".
Proof.
  eexists. split; [vm_compute; reflexivity|].
  refine (proj1 (profile_derivation Env.TextFormatName
                   Env.GpdbWritableFormatName Env.PXF_FDW_DEFAULT_HOST
                   Env.PXF_FDW_DEFAULT_PORT Env.PXF_FDW_DEFAULT_PROTOCOL
                   sales_table sales_user sales_server sales_wrapper
                   "srv" zero _ _) (makeDefElem "protocol" "s3") _);
    reflexivity.
Defined.

Lemma wire_format_derivation_witness :
  exists opt,
    resolve sales_table sales_user sales_server sales_wrapper "srv" zero
    = OK opt
    /\ wire_format opt = Some Env.TextFormatName.
Proof.
  eexists. split; [vm_compute; reflexivity|].
  apply (wire_format_derivation Env.TextFormatName
           Env.GpdbWritableFormatName Env.PXF_FDW_DEFAULT_HOST
           Env.PXF_FDW_DEFAULT_PORT Env.PXF_FDW_DEFAULT_PROTOCOL
           sales_table sales_user sales_server sales_wrapper "srv" zero).
  reflexivity.
Defined.

Lemma validated_resource_and_protocol_witness :
  validated_in_env sales_table sales_user sales_server sales_wrapper
  /\ exists opt,
       resolve sales_table sales_user sales_server sales_wrapper "srv" zero
       = OK opt
       /\ exists r p,
            resource opt = Some r /\ r <> EmptyString
            /\ protocol opt = Some p /\ p <> EmptyString.
Proof.
  split; [repeat split; vm_compute; reflexivity|].
  eexists. split; [vm_compute; reflexivity|].
  apply (validated_resource_and_protocol Env.TextFormatName
           Env.GpdbWritableFormatName Env.PXF_FDW_DEFAULT_HOST
           Env.PXF_FDW_DEFAULT_PORT Env.PXF_FDW_DEFAULT_PROTOCOL
           Env.RelationGetRelationName Env.defGetBoolean
           Env.ProcessCopyOptions
           sales_table sales_user sales_server sales_wrapper "srv" zero);
    [repeat split; vm_compute; reflexivity | vm_compute; reflexivity].
Defined.

Lemma validated_reject_limit_witness :
  validated_in_env sales_table sales_user sales_server sales_wrapper
  /\ exists opt,
       resolve sales_table sales_user sales_server sales_wrapper "srv" zero
       = OK opt
       /\ (reject_limit opt = -1
           \/ (is_reject_limit_rows opt = true /\ 2 <= reject_limit opt)
           \/ (is_reject_limit_rows opt = false
               /\ 1 <= reject_limit opt <= 100)).
Proof.
  split; [repeat split; vm_compute; reflexivity|].
  eexists. split; [vm_compute; reflexivity|].
  apply (validated_reject_limit Env.TextFormatName
           Env.GpdbWritableFormatName Env.PXF_FDW_DEFAULT_HOST
           Env.PXF_FDW_DEFAULT_PORT Env.PXF_FDW_DEFAULT_PROTOCOL
           Env.RelationGetRelationName Env.defGetBoolean
           Env.ProcessCopyOptions
           sales_table sales_user sales_server sales_wrapper "srv" zero);
    [repeat split; vm_compute; reflexivity | vm_compute; reflexivity].
Defined.

Lemma validated_copy_options_witness :
  validated_in_env sales_table sales_user sales_server sales_wrapper
  /\ exists opt,
       resolve sales_table sales_user sales_server sales_wrapper "srv" zero
       = OK opt
       /\ copy_options opt
          = [makeDefElem "format" "CSV"; makeDefElem "header" "true"].
Proof.
  split; [repeat split; vm_compute; reflexivity|].
  eexists. split; [vm_compute; reflexivity|].
  refine (proj1 (validated_copy_options Env.TextFormatName
                   Env.GpdbWritableFormatName Env.PXF_FDW_DEFAULT_HOST
                   Env.PXF_FDW_DEFAULT_PORT Env.PXF_FDW_DEFAULT_PROTOCOL
                   Env.RelationGetRelationName Env.defGetBoolean
                   Env.ProcessCopyOptions
                   sales_table sales_user sales_server sales_wrapper
                   "srv" zero _ _ _));
    [repeat split; vm_compute; reflexivity | vm_compute; reflexivity].
Defined.

Lemma validated_wire_format_witness :
  validated_in_env sales_table sales_user sales_server sales_wrapper
  /\ exists opt,
       resolve sales_table sales_user sales_server sales_wrapper "srv" zero
       = OK opt
       /\ (wire_format opt = Some Env.TextFormatName
           \/ wire_format opt = Some Env.GpdbWritableFormatName).
Proof.
  split; [repeat split; vm_compute; reflexivity|].
  eexists. split; [vm_compute; reflexivity|].
  apply (validated_wire_format Env.TextFormatName
           Env.GpdbWritableFormatName Env.PXF_FDW_DEFAULT_HOST
           Env.PXF_FDW_DEFAULT_PORT Env.PXF_FDW_DEFAULT_PROTOCOL
           Env.RelationGetRelationName Env.defGetBoolean
           Env.ProcessCopyOptions
           sales_table sales_user sales_server sales_wrapper "srv" zero);
    [repeat split; vm_compute; reflexivity | vm_compute; reflexivity].
Defined.
